(** * pbc (Python Background Creator): the region model of [src/pbc.py]

    A shallow embedding of class [Background]: the margin resolution of
    [__init__], the region table [__area] with its toggle-bound aliases,
    region validation ([__area_check]) and the operations [filter],
    [image], [dimensions], [margins] and [save].

    Conventions of the embedding.
    - Python numbers given as margins or as [hbratio] are rationals ([Q]):
      [int] and [fractions.Fraction] arguments are modelled exactly, a
      binary64 [float] by the rational it denotes, with products taken
      exactly.  [int(x)] truncates toward zero.
    - Exceptions are values of type [exn]; a method is a function from the
      object's state to either an exception or a result and a new state.
    - [print] appends a line to the [stdout] field of the state.
    - The Pillow library is not part of the repository: images are modelled
      as a mode, a size and a pixel function, [crop]/[paste]/[new]/[copy]
      act on the pixel function, and the filter kernels, mode conversion and
      alpha mixing are operations of the class [Imaging]. *)

From Stdlib Require Import ZArith QArith Qround Lia Lqa String Ascii List.
From Stdlib Require Import PrimFloat FloatOps SpecFloat Uint63.
From stdpp Require Import gmap strings.

Local Open Scope string_scope.
Local Open Scope Z_scope.

(** ** Python numbers *)

(** [int(q)]: truncation toward zero. *)
Definition py_int (q : Q) : Z := Z.quot (Qnum q) (Z.pos (Qden q)).

Definition Qltb (a b : Q) : bool := negb (Qle_bool b a).

(** ** Exceptions and results *)

Inductive exn : Type :=
| ValueError (dimension : string) (dimension_value : Z) (given : Q)
| ZeroDivisionError
| KeyError (key : string)
| IndexError
| TypeError
| UnboundLocalError (name : string)
| FileNotFoundError (name : string).

Inductive Result (A : Type) : Type :=
| Ok (a : A)
| Raise (e : exn).
Arguments Ok {A} a.
Arguments Raise {A} e.

Definition rbind {A B} (r : Result A) (k : A → Result B) : Result B :=
  match r with
  | Ok a => k a
  | Raise e => Raise e
  end.

Declare Scope result_scope.
Delimit Scope result_scope with result.
Notation "x ← y ; z" := (rbind y (λ x : _, z))
  (at level 20, y at level 100, z at level 200, only parsing) : result_scope.
Notation "' x ← y ; z" := (rbind y (λ x : _, z))
  (at level 20, x pattern, y at level 100, z at level 200, only parsing) : result_scope.

(** ** The image library (Pillow), as far as the program uses it *)

Definition Pixel : Type := (Z * Z * Z * Z)%type.
Definition Box : Type := (Z * Z * Z * Z)%type.

Definition black : Pixel := (0, 0, 0, 0).

Record Image : Type := mkImage {
  mode : string;
  size : Z * Z;
  getpixel : Z → Z → Pixel
}.

(** The pixels of a box [(x0, y0, x1, y1)]: left and upper edges are in,
    right and lower edges are out. *)
Definition in_box (b : Box) (x y : Z) : Prop :=
  let '(x0, y0, x1, y1) := b in x0 ≤ x < x1 ∧ y0 ≤ y < y1.

Definition in_boxb (b : Box) (x y : Z) : bool :=
  let '(x0, y0, x1, y1) := b in
  (x0 <=? x) && (x <? x1) && (y0 <=? y) && (y <? y1).

Definition bounds (im : Image) : Box := (0, 0, fst (size im), snd (size im)).

(** Operations whose pixel arithmetic stays inside the library. *)
Class Imaging : Type := {
  convert_pixel : string → string → Pixel → Pixel;
  mix : Pixel → Pixel → Pixel → Pixel;
  GaussianBlur : Z → Image → Image;
  MaxFilter : Z → Image → Image;
  MinFilter : Z → Image → Image;
  putalpha : Image → Image → Image;
  convert : Image → string → Image;
  Image_blend : Image → Image → Q → Image
}.

Module PIL.

(** [Image.new(mode, size, color)] *)
Definition new (m : string) (sz : Z * Z) (color : Pixel) : Image :=
  mkImage m sz (λ _ _, color).

(** [im.copy()] *)
Definition copy (im : Image) : Image := im.

(** [im.crop(box)]: pixels of the box that lie outside the image are
    black. *)
Definition crop (im : Image) (b : Box) : Image :=
  let '(x0, y0, x1, y1) := b in
  mkImage (mode im) (x1 - x0, y1 - y0)
    (λ x y, if in_boxb (bounds im) (x + x0) (y + y0)
            then getpixel im (x + x0) (y + y0) else black).

Definition paste_box (src : Image) (coord : Z * Z) : Box :=
  (fst coord, snd coord, fst coord + fst (size src), snd coord + snd (size src)).

(** [dst.paste(src, coord)] and [dst.paste(src, coord, mask)]: only the
    pixels of the box of [src] placed at [coord] change. *)
Definition paste `{Imaging} (dst src : Image) (coord : Z * Z) (mask : option Image) : Image :=
  mkImage (mode dst) (size dst)
    (λ x y,
       if in_boxb (paste_box src coord) x y then
         let p := getpixel src (x - fst coord) (y - snd coord) in
         let p := if String.eqb (mode src) (mode dst) then p
                  else convert_pixel (mode src) (mode dst) p in
         match mask with
         | None => p
         | Some m => mix (getpixel m (x - fst coord) (y - snd coord)) (getpixel dst x y) p
         end
       else getpixel dst x y).

End PIL.

(** ** [os.path] (POSIX flavour) *)

Module os_path.

Fixpoint rsplit_sep (p : string) : option (string * string) :=
  match p with
  | EmptyString => None
  | String c p' =>
      match rsplit_sep p' with
      | Some (h, t) => Some (String c h, t)
      | None => if Ascii.eqb c "/" then Some (String c EmptyString, p') else None
      end
  end.

Fixpoint all_sep (p : string) : bool :=
  match p with
  | EmptyString => true
  | String c p' => Ascii.eqb c "/" && all_sep p'
  end.

Fixpoint rstrip_sep (p : string) : string :=
  match p with
  | EmptyString => EmptyString
  | String c p' =>
      match rstrip_sep p' with
      | EmptyString => if Ascii.eqb c "/" then EmptyString else String c EmptyString
      | r => String c r
      end
  end.

(** [os.path.split(p)] *)
Definition split (p : string) : string * string :=
  match rsplit_sep p with
  | None => (EmptyString, p)
  | Some (h, t) => (if all_sep h then h else rstrip_sep h, t)
  end.

Definition startswith_sep (p : string) : bool :=
  match p with
  | String c _ => Ascii.eqb c "/"
  | EmptyString => false
  end.

Fixpoint endswith_sep (p : string) : bool :=
  match p with
  | EmptyString => false
  | String c EmptyString => Ascii.eqb c "/"
  | String _ p' => endswith_sep p'
  end.

(** [os.path.join(a, *rest)] *)
Definition join2 (path b : string) : string :=
  if startswith_sep b then b
  else if String.eqb path "" || endswith_sep path then path +:+ b
  else path +:+ "/" +:+ b.

Definition join (parts : list string) : Result string :=
  match parts with
  | nil => Raise TypeError
  | a :: rest => Ok (fold_left join2 rest a)
  end.

End os_path.

(** [s.split('.')[-1]] *)
Fixpoint last_dot_field (s : string) : string :=
  match s with
  | EmptyString => EmptyString
  | String c s' =>
      if Ascii.eqb c "." then last_dot_field s'
      else if existsb (Ascii.eqb ".") (list_ascii_of_string s') then last_dot_field s'
      else s
  end.

(** ** Boxes *)

Definition delta_x (box : Box) : Z := let '(x0, _, x1, _) := box in x1 - x0.
Definition delta_y (box : Box) : Z := let '(_, y0, _, y1) := box in y1 - y0.
Definition delta (box : Box) : Z * Z := (delta_x box, delta_y box).
Definition boxsize : Box → Z * Z := delta.

(** [box[:2]] *)
Definition topleft (box : Box) : Z * Z := let '(x0, y0, _, _) := box in (x0, y0).

(** ** Keyword arguments of the constructor

    [**margins] holds numbers under the flat keys ([hbratio],
    [header_left], ...) and dictionaries of numbers under [header] and
    [body]. *)

Record kwargs : Type := mkKwargs {
  kw_num : gmap string Q;
  kw_dict : gmap string (gmap string Q)
}.

Definition no_kwargs : kwargs := mkKwargs ∅ ∅.

(** [margins.get(part_side, margins.get(part, {}).get(side, dflt))] *)
Definition margin_arg (margins : kwargs) (part side : string) (dflt : Q) : Q :=
  default (default dflt (default ∅ (kw_dict margins !! part) !! side))
          (kw_num margins !! (part +:+ "_" +:+ side)).

(** One margin block of [__init__]: the bound test against [limit], the
    error naming [reported], and the thickness and factor derived from
    [governing].  The eight blocks of the source differ only in these. *)
Definition margin_block (label : string) (limit reported governing : Z) (margin_size : Q)
  : Result (Z * Q) :=
  if Qltb margin_size 0 || Qltb (inject_Z limit) margin_size then
    Raise (ValueError label reported margin_size)
  else if Qltb margin_size 1 then
    Ok (py_int (inject_Z governing * margin_size), margin_size)
  else
    let thickness := py_int margin_size in
    if governing =? 0 then Raise ZeroDivisionError
    else Ok (thickness, (inject_Z thickness / inject_Z governing)%Q).

(** ** The dimensions computed by [__init__] *)

Record Layout : Type := mkLayout {
  width : Z;
  height : Z;
  hbratio : Q;
  header_width : Z;
  header_height : Z;
  header_margin_left_thickness : Z;
  header_margin_left_thickness_factor : Q;
  header_margin_right_thickness : Z;
  header_margin_right_thickness_factor : Q;
  header_margin_top_thickness : Z;
  header_margin_top_thickness_factor : Q;
  header_margin_bottom_thickness : Z;
  header_margin_bottom_thickness_factor : Q;
  body_width : Z;
  body_height : Z;
  body_margin_left_thickness : Z;
  body_margin_left_thickness_factor : Q;
  body_margin_right_thickness : Z;
  body_margin_right_thickness_factor : Q;
  body_margin_top_thickness : Z;
  body_margin_top_thickness_factor : Q;
  body_margin_bottom_thickness : Z;
  body_margin_bottom_thickness_factor : Q
}.

Local Open Scope result_scope.

Definition init_layout (im_size : Z * Z) (margins : kwargs) : Result Layout :=
  let width := fst im_size in
  let height := snd im_size in
  let hbratio := default (2 # 10)%Q (kw_num margins !! "hbratio") in
  (* HEADER dimensions *)
  let header_width := width in
  let header_height := py_int (inject_Z height * hbratio) in
  '(hl, hlf) ← margin_block "Header width" header_width header_width header_width
                 (margin_arg margins "header" "left" (1 # 10)%Q);
  '(hr, hrf) ← margin_block "Header width" header_width header_width header_width
                 (margin_arg margins "header" "right" (1 # 10)%Q);
  '(ht, htf) ← margin_block "Header height" header_height header_height header_height
                 (margin_arg margins "header" "top" (2 # 10)%Q);
  '(hb, hbf) ← margin_block "Header height" header_height header_height header_height
                 (margin_arg margins "header" "bottom" (2 # 10)%Q);
  (* BODY dimensions *)
  let body_width := width in
  let body_height := py_int (inject_Z height * (1 - hbratio)) in
  '(bl, blf) ← margin_block "Body width" body_width body_width body_width
                 (margin_arg margins "body" "left" (15 # 100)%Q);
  '(br, brf) ← margin_block "Body width" body_width body_width body_width
                 (margin_arg margins "body" "right" (15 # 100)%Q);
  '(bt, btf) ← margin_block "Body height" body_width body_height body_height
                 (margin_arg margins "body" "top" (1 # 10)%Q);
  '(bb, bbf) ← margin_block "Body height" body_width body_height body_height
                 (margin_arg margins "body" "bottom" (1 # 10)%Q);
  Ok (mkLayout width height hbratio header_width header_height
        hl hlf hr hrf ht htf hb hbf body_width body_height
        bl blf br brf bt btf bb bbf).

Local Close Scope result_scope.

Section Rectangles.

Variable g : Layout.

Definition image_size : Z * Z := (width g, height g).
Definition header_size : Z * Z := (header_width g, header_height g).
Definition header_rect : Box := (0, 0, header_width g, header_height g).
Definition body_size : Z * Z := (body_width g, body_height g).
Definition body_rect : Box :=
  (0, header_height g, body_width g, body_height g + header_height g).

(* HEADER, content area *)
Definition header_cont_rect : Box :=
  (header_margin_left_thickness g,
   header_margin_top_thickness g,
   header_width g - header_margin_right_thickness g,
   header_height g - header_margin_bottom_thickness g).
Definition header_cont_width : Z := delta_x header_cont_rect.
Definition header_cont_height : Z :=
  header_height g - (header_margin_top_thickness g + header_margin_bottom_thickness g).
Definition header_cont_size : Z * Z := boxsize header_cont_rect.

(* header margins (inclusive) *)
Definition header_margin_left_inclusive : Box :=
  (0, 0, header_margin_left_thickness g, header_height g).
Definition header_margin_right_inclusive : Box :=
  (header_width g - header_margin_right_thickness g, 0, header_width g, header_height g).
Definition header_margin_top_inclusive : Box :=
  (0, 0, header_width g, header_margin_top_thickness g).
Definition header_margin_bottom_inclusive : Box :=
  (0, header_margin_top_thickness g + header_cont_height, header_width g, header_height g).
(* header margins (exclusive) *)
Definition header_margin_left_exclusive : Box :=
  (0, header_margin_top_thickness g,
   header_margin_left_thickness g, header_height g - header_margin_bottom_thickness g).
Definition header_margin_right_exclusive : Box :=
  (header_width g - header_margin_right_thickness g, header_margin_top_thickness g,
   header_width g, header_height g - header_margin_bottom_thickness g).
Definition header_margin_top_exclusive : Box :=
  (header_margin_left_thickness g, 0,
   header_width g - header_margin_right_thickness g, header_margin_top_thickness g).
Definition header_margin_bottom_exclusive : Box :=
  (header_margin_left_thickness g, header_height g - header_margin_bottom_thickness g,
   header_width g - header_margin_right_thickness g, header_height g).
(* header margin sizes *)
Definition header_margin_left_inclusive_size : Z * Z :=
  (header_margin_left_thickness g, header_height g).
Definition header_margin_right_inclusive_size : Z * Z :=
  (header_margin_right_thickness g, header_height g).
Definition header_margin_top_inclusive_size : Z * Z :=
  (header_width g, header_margin_top_thickness g).
Definition header_margin_bottom_inclusive_size : Z * Z :=
  (header_width g, header_margin_bottom_thickness g).
Definition header_margin_left_exclusive_size := boxsize header_margin_left_exclusive.
Definition header_margin_right_exclusive_size := boxsize header_margin_right_exclusive.
Definition header_margin_top_exclusive_size := boxsize header_margin_top_exclusive.
Definition header_margin_bottom_exclusive_size := boxsize header_margin_bottom_exclusive.

(* BODY, content area *)
Definition body_cont_rect : Box :=
  (body_margin_left_thickness g,
   header_height g + body_margin_top_thickness g,
   body_width g - body_margin_right_thickness g,
   height g - body_margin_bottom_thickness g).
Definition body_cont_width : Z :=
  body_width g - (body_margin_left_thickness g + body_margin_right_thickness g).
Definition body_cont_height : Z :=
  body_height g - (body_margin_top_thickness g + body_margin_bottom_thickness g).
Definition body_cont_size : Z * Z := (body_cont_width, body_cont_height).

(* body margin areas (inclusive) *)
Definition body_margin_left_inclusive : Box :=
  (0, header_height g, body_margin_left_thickness g, height g).
Definition body_margin_right_inclusive : Box :=
  (body_width g - body_margin_right_thickness g, header_height g, body_width g, height g).
Definition body_margin_top_inclusive : Box :=
  (0, header_height g, body_width g, header_height g + body_margin_top_thickness g).
Definition body_margin_bottom_inclusive : Box :=
  (0, height g - body_margin_bottom_thickness g, body_width g, height g).
(* body margin areas (exclusive) *)
Definition body_margin_left_exclusive : Box :=
  (0, header_height g + body_margin_top_thickness g,
   body_margin_left_thickness g, height g - body_margin_bottom_thickness g).
Definition body_margin_right_exclusive : Box :=
  (body_width g - body_margin_right_thickness g, header_height g + body_margin_top_thickness g,
   body_width g, height g - body_margin_bottom_thickness g).
Definition body_margin_top_exclusive : Box :=
  (body_margin_left_thickness g, header_height g,
   body_width g - body_margin_right_thickness g, header_height g + body_margin_top_thickness g).
Definition body_margin_bottom_exclusive : Box :=
  (body_margin_left_thickness g, height g - body_margin_bottom_thickness g,
   body_width g - body_margin_right_thickness g, height g).
(* body margin sizes *)
Definition body_margin_left_inclusive_size := boxsize body_margin_left_inclusive.
Definition body_margin_right_inclusive_size := boxsize body_margin_right_inclusive.
Definition body_margin_top_inclusive_size := boxsize body_margin_top_inclusive.
Definition body_margin_bottom_inclusive_size := boxsize body_margin_bottom_inclusive.
Definition body_margin_left_exclusive_size := boxsize body_margin_left_exclusive.
Definition body_margin_right_exclusive_size := boxsize body_margin_right_exclusive.
Definition body_margin_top_exclusive_size := boxsize body_margin_top_exclusive.
Definition body_margin_bottom_exclusive_size := boxsize body_margin_bottom_exclusive.

End Rectangles.

(** ** The region table [__area] *)

(** An entry is a Python tuple [(size, origin, rect)]; the placeholder
    entries of part [full] are pairs [(size, origin)]. *)
Inductive Entry : Type :=
| Entry2 (size origin : Z * Z)
| Entry3 (size origin : Z * Z) (rect : Box).

(** [entry[0]], [entry[1]], [entry[2]] and [entry[:2]] *)
Definition item0 (e : Entry) : Z * Z :=
  match e with Entry2 s _ | Entry3 s _ _ => s end.
Definition item1 (e : Entry) : Z * Z :=
  match e with Entry2 _ o | Entry3 _ o _ => o end.
Definition item2 (e : Entry) : Result Box :=
  match e with Entry2 _ _ => Raise IndexError | Entry3 _ _ r => Ok r end.
Definition slice2 (e : Entry) : (Z * Z) * (Z * Z) := (item0 e, item1 e).

Definition full_table (g : Layout) : gmap string Entry :=
  list_to_map
    [ ("full",        Entry3 (image_size g) (0, 0) (0, 0, width g, height g));
      ("inner",       Entry2 (20, 20) (20, 20));
      ("top-incl",    Entry3 (header_size g) (topleft (header_rect g)) (header_rect g));
      ("top-excl",    Entry3 (header_cont_size g) (topleft (header_cont_rect g)) (header_cont_rect g));
      ("bottom-incl", Entry3 (body_size g) (topleft (body_rect g)) (body_rect g));
      ("bottom-excl", Entry3 (body_cont_size g) (topleft (body_cont_rect g)) (body_cont_rect g));
      ("left-incl",   Entry2 (20, 20) (10, 10));
      ("left-excl",   Entry2 (20, 20) (10, 10));
      ("right-incl",  Entry2 (20, 20) (10, 10));
      ("right-excl",  Entry2 (20, 20) (10, 10)) ].

Definition header_table (g : Layout) : gmap string Entry :=
  list_to_map
    [ ("full",        Entry3 (header_size g) (topleft (header_rect g)) (header_rect g));
      ("inner",       Entry3 (header_cont_size g) (topleft (header_cont_rect g)) (header_cont_rect g));
      ("left-incl",   Entry3 (header_margin_left_inclusive_size g)
                        (topleft (header_margin_left_inclusive g)) (header_margin_left_inclusive g));
      ("left-excl",   Entry3 (header_margin_left_exclusive_size g)
                        (topleft (header_margin_left_exclusive g)) (header_margin_left_exclusive g));
      ("right-incl",  Entry3 (header_margin_right_inclusive_size g)
                        (topleft (header_margin_right_inclusive g)) (header_margin_right_inclusive g));
      ("right-excl",  Entry3 (header_margin_right_exclusive_size g)
                        (topleft (header_margin_right_exclusive g)) (header_margin_right_exclusive g));
      ("top-incl",    Entry3 (header_margin_top_inclusive_size g)
                        (topleft (header_margin_top_inclusive g)) (header_margin_top_inclusive g));
      ("top-excl",    Entry3 (header_margin_top_exclusive_size g)
                        (topleft (header_margin_top_exclusive g)) (header_margin_top_exclusive g));
      ("bottom-incl", Entry3 (header_margin_bottom_inclusive_size g)
                        (topleft (header_margin_bottom_inclusive g)) (header_margin_bottom_inclusive g));
      ("bottom-excl", Entry3 (header_margin_bottom_exclusive_size g)
                        (topleft (header_margin_bottom_exclusive g)) (header_margin_bottom_exclusive g)) ].

Definition body_table (g : Layout) : gmap string Entry :=
  list_to_map
    [ ("full",        Entry3 (body_size g) (topleft (body_rect g)) (body_rect g));
      ("inner",       Entry3 (body_cont_size g) (topleft (body_cont_rect g)) (body_cont_rect g));
      ("left-incl",   Entry3 (body_margin_left_inclusive_size g)
                        (topleft (body_margin_left_inclusive g)) (body_margin_left_inclusive g));
      ("left-excl",   Entry3 (body_margin_left_exclusive_size g)
                        (topleft (body_margin_left_exclusive g)) (body_margin_left_exclusive g));
      ("right-incl",  Entry3 (body_margin_right_inclusive_size g)
                        (topleft (body_margin_right_inclusive g)) (body_margin_right_inclusive g));
      ("right-excl",  Entry3 (body_margin_right_exclusive_size g)
                        (topleft (body_margin_right_exclusive g)) (body_margin_right_exclusive g));
      ("top-incl",    Entry3 (body_margin_top_inclusive_size g)
                        (topleft (body_margin_top_inclusive g)) (body_margin_top_inclusive g));
      ("top-excl",    Entry3 (body_margin_top_exclusive_size g)
                        (topleft (body_margin_top_exclusive g)) (body_margin_top_exclusive g));
      ("bottom-incl", Entry3 (body_margin_bottom_inclusive_size g)
                        (topleft (body_margin_bottom_inclusive g)) (body_margin_bottom_inclusive g));
      ("bottom-excl", Entry3 (body_margin_bottom_exclusive_size g)
                        (topleft (body_margin_bottom_exclusive g)) (body_margin_bottom_exclusive g)) ].

Definition area_table (g : Layout) : gmap string (gmap string Entry) :=
  list_to_map
    [ ("full", full_table g);
      ("header", header_table g);
      ("body", body_table g);
      ("__EMERGENCY", ∅) ].

(** ** The object state *)

Record Background : Type := mkBackground {
  image_name : string;
  image_path : string;
  im_obj : Image;
  imco : Image;
  layout : Layout;
  _include_margins : bool;
  silent_include : bool;
  area : gmap string (gmap string Entry);
  stdout : list string
}.

Definition set_im_obj (im : Image) (self : Background) : Background :=
  mkBackground (image_name self) (image_path self) im (imco self) (layout self)
    (_include_margins self) (silent_include self) (area self) (stdout self).
Definition set_include_margins (b : bool) (self : Background) : Background :=
  mkBackground (image_name self) (image_path self) (im_obj self) (imco self) (layout self)
    b (silent_include self) (area self) (stdout self).
Definition set_silent_include (b : bool) (self : Background) : Background :=
  mkBackground (image_name self) (image_path self) (im_obj self) (imco self) (layout self)
    (_include_margins self) b (area self) (stdout self).
Definition set_area (a : gmap string (gmap string Entry)) (self : Background) : Background :=
  mkBackground (image_name self) (image_path self) (im_obj self) (imco self) (layout self)
    (_include_margins self) (silent_include self) a (stdout self).
Definition set_stdout (out : list string) (self : Background) : Background :=
  mkBackground (image_name self) (image_path self) (im_obj self) (imco self) (layout self)
    (_include_margins self) (silent_include self) (area self) out.

(** The files the program can see. *)
Record World : Type := mkWorld {
  files : string → option Image;
  path_exists : string → bool;
  getcwd : string
}.

(** [Image.open(name)] *)
Definition Image_open (w : World) (name : string) : Result Image :=
  match files w name with
  | Some im => Ok im
  | None => Raise (FileNotFoundError name)
  end.

(** Methods: state-passing computations that may raise. *)
Definition M (A : Type) : Type := Background → Result (A * Background).

Definition ret {A} (a : A) : M A := λ self, Ok (a, self).
Definition bind {A B} (c : M A) (k : A → M B) : M B := λ self,
  match c self with
  | Ok (a, self') => k a self'
  | Raise e => Raise e
  end.

Declare Scope method_scope.
Delimit Scope method_scope with method.
Bind Scope method_scope with M.
Notation "x ← y ; z" := (bind y (λ x : _, z))
  (at level 20, y at level 100, z at level 200, only parsing) : method_scope.
Notation "' x ← y ; z" := (bind y (λ x : _, z))
  (at level 20, x pattern, y at level 100, z at level 200, only parsing) : method_scope.
Notation "x ;; z" := (bind x (λ _, z))
  (at level 100, z at level 200, only parsing, right associativity) : method_scope.

Definition raise {A} (e : exn) : M A := λ _, Raise e.
Definition lift {A} (r : Result A) : M A := λ self,
  match r with Ok a => Ok (a, self) | Raise e => Raise e end.
Definition gets {A} (f : Background → A) : M A := λ self, Ok (f self, self).
Definition modify (f : Background → Background) : M unit := λ self, Ok (tt, f self).
Definition print (line : string) : M unit :=
  modify (λ self, set_stdout (stdout self ++ [line]) self).

(** [self.__area[part][region]] and [self.__area[part][region] = e] *)
Definition area_get (part region : string) : M Entry := λ self,
  match area self !! part with
  | None => Raise (KeyError part)
  | Some table =>
      match table !! region with
      | None => Raise (KeyError region)
      | Some e => Ok (e, self)
      end
  end.
Definition area_set (part region : string) (e : Entry) : M unit := λ self,
  match area self !! part with
  | None => Raise (KeyError part)
  | Some table => Ok (tt, set_area (<[part := <[region := e]> table]> (area self)) self)
  end.

(** ** The methods of [Background] *)

(** ["{:n}".format(s)] for a string [s] *)
Definition ljust (n : nat) (s : string) : string :=
  s +:+ string_of_list_ascii (repeat " "%char (n - String.length s)).

Definition quoted (s : string) : string := "'" +:+ s +:+ "'".

Definition newline : string := String (ascii_of_nat 10) EmptyString.

(** The argument of [margins]: [True], [False], ['return'], [None], or
    anything else. *)
Inductive Switch : Type :=
| SwTrue | SwFalse | SwReturn | SwNone | SwOther (shown : string).

(** The first argument of [overlay]. *)
Inductive OvImage : Type :=
| OvBlank
| OvTuple (color : list Z)
| OvPath (name : string).

Definition color_of_tuple (t : list Z) : Pixel :=
  match t with
  | [r; g; b] => (r, g, b, 255)
  | [r; g; b; a] => (r, g, b, a)
  | _ => black
  end.

(** What [save] hands to the image library: directory, file name, format. *)
Record Saved : Type := mkSaved {
  saved_dir : string;
  saved_name : string;
  saved_format : string
}.

Module pbc.
Section Methods.

Context `{Imaging}.
Variable world : World.

(** [__init__] *)
Definition init (name : string) (margins : kwargs) : Result Background :=
  (let image_name := snd (os_path.split name) in
   let image_path := fst (os_path.split name) in
   im_obj ← Image_open world name;
   let imco := PIL.copy im_obj in
   g ← init_layout (size im_obj) margins;
   Ok (mkBackground image_name image_path im_obj imco g true false (area_table g) []))%result.

Local Open Scope method_scope.

(** The setter of the property [include_margins] *)
Definition message (mes : string) : M unit :=
  silent ← gets silent_include;
  if silent then ret tt else print mes.

Definition bind_alias (part side in_or_ex : string) : M unit :=
  e ← area_get part (side +:+ "-" +:+ in_or_ex);
  area_set part side e.

Definition include_margins_setter (switch : bool) : M unit :=
  modify (set_include_margins switch);;
  name ← gets image_name;
  in_or_ex ← (if switch
              then message ("Including margins === " +:+ quoted name);; ret "incl"
              else message ("Excluding margins === " +:+ quoted name);; ret "excl");
  bind_alias "full" "left" in_or_ex;;
  bind_alias "full" "right" in_or_ex;;
  bind_alias "full" "top" in_or_ex;;
  bind_alias "full" "bottom" in_or_ex;;
  bind_alias "header" "left" in_or_ex;;
  bind_alias "header" "right" in_or_ex;;
  bind_alias "header" "top" in_or_ex;;
  bind_alias "header" "bottom" in_or_ex;;
  bind_alias "body" "left" in_or_ex;;
  bind_alias "body" "right" in_or_ex;;
  bind_alias "body" "top" in_or_ex;;
  bind_alias "body" "bottom" in_or_ex.

(** [margins(switch)] *)
Definition margins (switch : Switch) : M (option bool) :=
  match switch with
  | SwTrue => include_margins_setter true;; ret None
  | SwFalse => include_margins_setter false;; ret None
  | SwReturn => flag ← gets _include_margins; ret (Some flag)
  | SwNone =>
      flag ← gets _include_margins;
      (if flag then include_margins_setter false else include_margins_setter true);;
      ret None
  | SwOther shown => print ("INVALID input for margins:  " +:+ shown);; ret None
  end.

(** [__area_check(part, region)] *)
Definition area_check (part region : string) : M (string * string) :=
  modify (set_silent_include true);;
  margins SwNone;;
  margins SwNone;;
  modify (set_silent_include false);;
  a ← gets area;
  (if decide (is_Some (a !! "__EMERGENCY")) then ret tt
   else raise (KeyError "__EMERGENCY"));;
  let area_check := delete "__EMERGENCY" a in
  part ← (if decide (is_Some (area_check !! part)) then ret part
          else print ("Undefined part of the image specified: " +:+ part);; ret "full");
  full ← lift (match area_check !! "full" with
               | Some t => Ok t
               | None => Raise (KeyError "full")
               end);
  region ← (if decide (is_Some (full !! region)) then ret region
            else print ("Undefined region of the image part specified: " +:+ region);;
                 ret "full");
  ret (part, region).

(** [__message(operator, operation, part, region)] *)
Definition message_applied (operator operation part region : string) : M unit :=
  name ← gets image_name;
  print (ljust 7 operator +:+ " applied: " +:+ ljust 11 (quoted operation) +:+ " on "
         +:+ ljust 9 (quoted part) +:+ " " +:+ ljust 14 (quoted region) +:+ " === "
         +:+ name +:+ " ").

(** [__try_open_image(image, part, region)] *)
Definition try_open_image (image part region : string) : M (Image * string) :=
  match Image_open world image with
  | Ok im => ret (im, "image")
  | Raise _ =>
      e ← area_get part region;
      ret (PIL.new "RGBA" (item0 e) (255, 0, 255, 230), "??image??")
  end.

(** [__paste_image(canvas, image, part, region, coords)]; the canvas is
    returned instead of being changed in place. *)
Definition paste_image (canvas image : Image) (part region : string)
    (coords : option (Z * Z)) : M Image :=
  if String.eqb (mode image) "RGB" then
    match coords with
    | Some c => ret (PIL.paste canvas image c None)
    | None => e ← area_get part region; ret (PIL.paste canvas image (item1 e) None)
    end
  else if String.eqb (mode image) "RGBA" then
    match coords with
    | Some c => ret (PIL.paste canvas image c (Some image))
    | None => e ← area_get part region; ret (PIL.paste canvas image (item1 e) (Some image))
    end
  else
    print ("Undefined situation. Image mode:  " +:+ mode image);;
    ret canvas.

(** [filter(operation, part, region, value)] *)
Definition Filter_options (operation : option string) (value : Q) : option (Image → Image) :=
  match operation with
  | None => Some (GaussianBlur 0)
  | Some op =>
      if String.eqb op "raw" then Some (GaussianBlur 0)
      else if String.eqb op "blur" then Some (GaussianBlur (py_int value))
      else if String.eqb op "maxFilter" then Some (MaxFilter 3)
      else if String.eqb op "minFilter" then Some (MinFilter 3)
      else None
  end.

Definition filter (operation : option string) (part region : string) (value : Q) : M unit :=
  '(part, region) ← area_check part region;
  operation ← match Filter_options operation value with
              | Some _ => ret operation
              | None => print ("INVALID operation:  " +:+ default "None" operation
                               +:+ ". Setting to 'None'.");; ret None
              end;
  e ← area_get part region;
  rect ← lift (item2 e);
  source ← (if decide (operation = Some "raw") then gets imco else gets im_obj);
  let cropped := PIL.crop source rect in
  let filtered := default (GaussianBlur 0) (Filter_options operation value) cropped in
  e ← area_get part region;
  modify (λ self, set_im_obj (PIL.paste (im_obj self) filtered (item1 e) None) self);;
  message_applied "Filter" (default "None" operation) part region.

(** [overlay(ov_image, part, region)]; the warning for a tuple of the wrong
    length is printed without the tuple. *)
Definition overlay (ov_image : OvImage) (part region : string) : M unit :=
  '(part, region) ← area_check part region;
  '(ov, operation) ←
    match ov_image return M (Image * string) with
    | OvBlank =>
        e ← area_get part region;
        ret (PIL.new "RGBA" (item0 e) (150, 150, 150, 150), "blank")
    | OvTuple t =>
        if ((length t <? 3) || (4 <? length t))%nat then
          print "INVALID tuple given: ";;
          e ← area_get part region;
          ret (PIL.new "RGBA" (item0 e) (220, 255, 120, 230), "ERROR")
        else
          e ← area_get part region;
          ret (PIL.new "RGBA" (item0 e) (color_of_tuple t), "color")
    | OvPath name => try_open_image name part region
    end;
  canvas ← gets im_obj;
  canvas ← paste_image canvas ov part region None;
  modify (set_im_obj canvas);;
  message_applied "Overlay" operation part region.

(** [image(picture, part, region, borders, anchor, transparency)];
    [borders] is [Some b] for a value equal to the boolean [b] and [None]
    for any other value, which the warning is printed without. *)
Definition image (picture : option string) (part region : string)
    (borders : option bool) (anchor : option (Z * Z)) (transparency : Z) : M unit :=
  '(part, region) ← area_check part region;
  g ← gets layout;
  let empty_alpha := PIL.new "L" (width g, height g) black in
  '(pic, operation) ←
    match picture return M (Image * option string) with
    | None => print "No image specified.";; ret (empty_alpha, None)
    | Some name => '(im, op) ← try_open_image name part region; ret (im, Some op)
    end;
  image_copy ← gets (λ self, PIL.copy (im_obj self));
  let pic :=
    if (transparency <? 255) && negb (String.eqb (mode pic) "RGBA") then
      let pic' := putalpha pic empty_alpha in
      let empty_alpha' := match picture with Some _ => empty_alpha | None => pic' end in
      Image_blend pic' (convert empty_alpha' "RGBA") (1 # 2)%Q
    else pic in
  operation ←
    match borders with
    | Some true =>
        '(image_copy, operation) ←
          match anchor with
          | None => c ← paste_image image_copy pic part region None; ret (c, "crop")
          | Some a => c ← paste_image image_copy pic "full" "full" (Some a); ret (c, "anchor")
          end;
        e ← area_get part region;
        rect ← lift (item2 e);
        let cropped := PIL.crop image_copy rect in
        canvas ← gets im_obj;
        canvas ← paste_image canvas cropped part region None;
        modify (set_im_obj canvas);;
        ret (Some operation)
    | Some false =>
        canvas ← gets im_obj;
        canvas ← paste_image canvas pic part region None;
        modify (set_im_obj canvas);;
        ret (Some "paste")
    | None => print "INVALID borders specification: ";; ret operation
    end;
  match operation with
  | Some op => message_applied "Image" op part region
  | None => raise (UnboundLocalError "operation")
  end.

(** [dimensions(part, region)] *)
Definition dimensions (part region : string) : M ((Z * Z) * (Z * Z)) :=
  '(part, region) ← area_check part region;
  e ← area_get part region;
  ret (slice2 e).

(** [save(name, *location)]; [save_location] is the class attribute.
    The result is the file handed to [im_obj.save], if any. *)
Definition save (save_location : string) (name : option string) (location : list string)
  : M (option Saved) :=
  name_str ← lift (match name with Some n => Ok n | None => Raise TypeError end);
  let im_path := if String.eqb save_location "" then fst (os_path.split name_str)
                 else save_location in
  let im_name := snd (os_path.split name_str) in
  let im_format := last_dot_field im_name in
  let cwd := getcwd world in
  self_name ← gets image_name;
  let skipping := "Skipping save. " +:+ quoted self_name +:+ " has NOT been saved." in
  (* verify path input *)
  path ←
    match location, String.eqb im_path "" with
    | _ :: _, false =>
        joined ← lift (os_path.join location);
        print ("TOO MANY paths were given:" +:+ newline +:+ " " +:+ im_path +:+ ", " +:+ joined);;
        print skipping;;
        ret None
    | [], true => ret (Some (getcwd world))
    | _ :: _, true =>
        path ← lift (os_path.join location);
        if path_exists world path then ret (Some path)
        else print ("INVALID location:  " +:+ path);; print skipping;; ret None
    | [], false =>
        let path := im_path in
        if path_exists world path then ret (Some path)
        else print ("INVALID path:  " +:+ path);; print skipping;; ret None
    end;
  match path with
  | None => ret None
  | Some path =>
      (* verify image_format input *)
      let im_format := if String.eqb im_format "jpg" then "jpeg" else im_format in
      (* prepend processed tag *)
      let im_name := match name with
                     | None => "pbc-" +:+ self_name
                     | Some _ => "pbc-" +:+ im_name
                     end in
      (* save image *)
      print (quoted self_name +:+ " saved as " +:+ quoted im_name +:+ " to "
             +:+ quoted path);;
      ret (Some (mkSaved path im_name im_format))
  end.


End Methods.
End pbc.

(** * Vocabulary of the properties *)

(** ** Parts, regions and alias binding *)

(** The suffix the setter of [include_margins] picks. *)
Definition in_or_ex (switch : bool) : string := if switch then "incl" else "excl".

(** The parts [__area_check] accepts, the alias keys the setter binds, the
    keys it reads, and all the region keys of a part once aliases are
    bound. *)
Definition parts : list string := ["full"; "header"; "body"].
Definition sides : list string := ["left"; "right"; "top"; "bottom"].
Definition variants : list string :=
  ["left-incl"; "left-excl"; "right-incl"; "right-excl";
   "top-incl"; "top-excl"; "bottom-incl"; "bottom-excl"].
Definition regions : list string := ["full"; "inner"] ++ variants ++ sides.

(** What the four assignments of the setter do to the table of one part,
    and the twelve to the whole of [__area]. *)
Definition bind_side (io : string) (t : gmap string Entry) (side : string) : gmap string Entry :=
  match t !! (side +:+ "-" +:+ io) with
  | Some e => <[side := e]> t
  | None => t
  end.

Definition bind_sides (io : string) (t : gmap string Entry) : gmap string Entry :=
  foldl (bind_side io) t sides.

Definition bind_part (io : string) (a : gmap string (gmap string Entry)) (part : string)
  : gmap string (gmap string Entry) :=
  match a !! part with
  | Some t => <[part := bind_sides io t]> a
  | None => a
  end.

Definition bind_all (io : string) (a : gmap string (gmap string Entry))
  : gmap string (gmap string Entry) :=
  foldl (bind_part io) a parts.

Definition bound_table (g : Layout) (switch : bool) : gmap string (gmap string Entry) :=
  bind_all (in_or_ex switch) (area_table g).

(** A part's table holds both variants of every side. *)
Definition has_variants (t : gmap string Entry) : Prop :=
  Forall (λ k, is_Some (t !! k)) variants.

Definition parts_ok (a : gmap string (gmap string Entry)) : Prop :=
  Forall (λ p, ∃ t, a !! p = Some t ∧ has_variants t) parts.

(** The state after the message of the setter. *)
Definition announce (switch : bool) (self : Background) : Background :=
  if silent_include self then self
  else set_stdout
         (stdout self ++ [if switch then "Including margins === " +:+ quoted (image_name self)
                          else "Excluding margins === " +:+ quoted (image_name self)])
         self.

(** ** The states of a model

    [__area] is private to the object: it is the table built by
    [__init__], with the aliases either not bound yet (the flag is then
    still [True]) or bound by the setter according to the flag.  The
    working buffer has the pixel mode and the size of the pristine copy. *)
Record consistent (self : Background) : Prop := {
  consistent_area :
    (area self = area_table (layout self) ∧ _include_margins self = true)
    ∨ area self = bound_table (layout self) (_include_margins self);
  consistent_mode : mode (im_obj self) = mode (imco self);
  consistent_size : size (im_obj self) = size (imco self);
  consistent_dims : size (imco self) = (width (layout self), height (layout self))
}.

(** What [__area_check] returns and prints. *)
Definition resolved_part (part : string) : string :=
  if decide (part ∈ parts) then part else "full".
Definition resolved_region (region : string) : string :=
  if decide (region ∈ regions) then region else "full".
Definition warnings (part region : string) : list string :=
  (if decide (part ∈ parts) then []
   else ["Undefined part of the image specified: " +:+ part])
  ++ (if decide (region ∈ regions) then []
      else ["Undefined region of the image part specified: " +:+ region]).

(** The state [__area_check] leaves behind. *)
Definition checked (part region : string) (self : Background) : Background :=
  mkBackground (image_name self) (image_path self) (im_obj self) (imco self)
    (layout self) (_include_margins self) false
    (bound_table (layout self) (_include_margins self))
    (stdout self ++ warnings part region).

(** ** The eight margins, by area and side *)

Inductive Area : Type := header_area | body_area.
Inductive Side : Type := left_side | right_side | top_side | bottom_side.

Definition area_name (a : Area) : string :=
  match a with header_area => "header" | body_area => "body" end.
Definition side_name (s : Side) : string :=
  match s with
  | left_side => "left" | right_side => "right"
  | top_side => "top" | bottom_side => "bottom"
  end.

(** The value [__init__] reads for a margin. *)
Definition supplied (margins : kwargs) (a : Area) (s : Side) : Q :=
  margin_arg margins (area_name a) (side_name s)
    match a, s with
    | header_area, (left_side | right_side) => 1 # 10
    | header_area, (top_side | bottom_side) => 2 # 10
    | body_area, (left_side | right_side) => 15 # 100
    | body_area, (top_side | bottom_side) => 1 # 10
    end%Q.

Definition thickness (g : Layout) (a : Area) (s : Side) : Z :=
  match a, s with
  | header_area, left_side => header_margin_left_thickness g
  | header_area, right_side => header_margin_right_thickness g
  | header_area, top_side => header_margin_top_thickness g
  | header_area, bottom_side => header_margin_bottom_thickness g
  | body_area, left_side => body_margin_left_thickness g
  | body_area, right_side => body_margin_right_thickness g
  | body_area, top_side => body_margin_top_thickness g
  | body_area, bottom_side => body_margin_bottom_thickness g
  end.

Definition thickness_factor (g : Layout) (a : Area) (s : Side) : Q :=
  match a, s with
  | header_area, left_side => header_margin_left_thickness_factor g
  | header_area, right_side => header_margin_right_thickness_factor g
  | header_area, top_side => header_margin_top_thickness_factor g
  | header_area, bottom_side => header_margin_bottom_thickness_factor g
  | body_area, left_side => body_margin_left_thickness_factor g
  | body_area, right_side => body_margin_right_thickness_factor g
  | body_area, top_side => body_margin_top_thickness_factor g
  | body_area, bottom_side => body_margin_bottom_thickness_factor g
  end.

(** The dimension a margin is a fraction of: the width for left and right,
    the height of its area for top and bottom. *)
Definition governing (g : Layout) (a : Area) (s : Side) : Z :=
  match a, s with
  | header_area, (left_side | right_side) => header_width g
  | header_area, (top_side | bottom_side) => header_height g
  | body_area, (left_side | right_side) => body_width g
  | body_area, (top_side | bottom_side) => body_height g
  end.

(** The dimension the constructor compares the value with. *)
Definition tested_against (g : Layout) (a : Area) (s : Side) : Z :=
  match a, s with
  | header_area, (left_side | right_side) => header_width g
  | header_area, (top_side | bottom_side) => header_height g
  | body_area, _ => body_width g
  end.

Definition dimension_label (a : Area) (s : Side) : string :=
  match a, s with
  | header_area, (left_side | right_side) => "Header width"
  | header_area, (top_side | bottom_side) => "Header height"
  | body_area, (left_side | right_side) => "Body width"
  | body_area, (top_side | bottom_side) => "Body height"
  end.

(** The rectangles of an area and of its margins. *)
Definition area_rect (g : Layout) (a : Area) : Box :=
  match a with header_area => header_rect g | body_area => body_rect g end.

Definition inner_rect (g : Layout) (a : Area) : Box :=
  match a with header_area => header_cont_rect g | body_area => body_cont_rect g end.

Definition inclusive (g : Layout) (a : Area) (s : Side) : Box :=
  match a, s with
  | header_area, left_side => header_margin_left_inclusive g
  | header_area, right_side => header_margin_right_inclusive g
  | header_area, top_side => header_margin_top_inclusive g
  | header_area, bottom_side => header_margin_bottom_inclusive g
  | body_area, left_side => body_margin_left_inclusive g
  | body_area, right_side => body_margin_right_inclusive g
  | body_area, top_side => body_margin_top_inclusive g
  | body_area, bottom_side => body_margin_bottom_inclusive g
  end.

Definition exclusive (g : Layout) (a : Area) (s : Side) : Box :=
  match a, s with
  | header_area, left_side => header_margin_left_exclusive g
  | header_area, right_side => header_margin_right_exclusive g
  | header_area, top_side => header_margin_top_exclusive g
  | header_area, bottom_side => header_margin_bottom_exclusive g
  | body_area, left_side => body_margin_left_exclusive g
  | body_area, right_side => body_margin_right_exclusive g
  | body_area, top_side => body_margin_top_exclusive g
  | body_area, bottom_side => body_margin_bottom_exclusive g
  end.

(** Every pixel of [b1] is a pixel of [b2]. *)
Definition subrect (b1 b2 : Box) : Prop := ∀ x y, in_box b1 x y → in_box b2 x y.

(** [inner] is [whole] without the pixels of the four inclusive bands. *)
Definition tiles (g : Layout) (a : Area) : Prop :=
  ∀ x y, in_box (inner_rect g a) x y
         ↔ in_box (area_rect g a) x y ∧ ∀ s, ¬ in_box (inclusive g a s) x y.

(** The model of the 1000x800 scenario. *)
Definition layout_1000x800 : Layout :=
  mkLayout 1000 800 (2 # 10) 1000 160
    100 (1 # 10) 100 (1 # 10) 32 (2 # 10) 32 (2 # 10)
    1000 640
    150 (15 # 100) 150 (15 # 100) 64 (1 # 10) 64 (1 # 10).

(** ** Runs of methods *)

(** What a run returns or raises, the final state left out. *)
Definition outcome {A} (r : Result (A * Background)) : Result A :=
  match r with
  | Ok (a, _) => Ok a
  | Raise e => Raise e
  end.

(** The entry a [(part, region)] pair stands for: [__area_check], then
    the table lookup every operation performs. *)
Definition resolve (part region : string) : M Entry :=
  '(part, region) ← pbc.area_check part region;
  area_get part region.



(** A model to run the operations on: a 1000x800 RGB picture, and an image
    library whose filters and conversions leave an image as it is. *)
Definition demo_image : Image := mkImage "RGB" (1000, 800) (λ x y, (x, y, 0, 255)).

Definition demo_world : World :=
  mkWorld (λ name, if String.eqb name "pic.png" then Some demo_image else None)
          (λ _, true) "/home/user".

Definition demo_model : Background :=
  mkBackground "pic.png" "" demo_image demo_image layout_1000x800 true false
    (area_table layout_1000x800) [].

Definition plain_imaging : Imaging :=
  {| convert_pixel := λ _ _ p, p;
     mix := λ _ _ p, p;
     GaussianBlur := λ _ im, im;
     MaxFilter := λ _ im, im;
     MinFilter := λ _ im, im;
     putalpha := λ im _, im;
     convert := λ im _, im;
     Image_blend := λ im _ _, im |}.

(** ** A Hoare logic for methods

    [keeps P c Q] says that [c], run on a consistent state whose pristine
    copy satisfies [P], ends, if it returns, in a consistent state with the
    same pristine copy, and that the value returned satisfies [Q]. *)

(** An image of the mode and size of the pristine copy. *)
Definition fits (co im : Image) : Prop := mode im = mode co ∧ size im = size co.

Definition keeps {A} (P : Image → Prop) (c : M A) (Q : Image → A → Prop) : Prop :=
  ∀ self a self',
    consistent self → P (imco self) → c self = Ok (a, self') →
    consistent self' ∧ imco self' = imco self ∧ Q (imco self) a.

Definition any {A} : Image → A → Prop := λ _ _, True.

Section Vocabulary.

Context `{Imaging}.
Variable world : World.




(** Construction, then any sequence of calls of the public methods and
    assignments to [include_margins] that return. *)
Inductive reachable : Background → Prop :=
| reach_init name margins self :
    pbc.init world name margins = Ok self → reachable self
| reach_include_margins switch self r self' :
    reachable self → pbc.include_margins_setter switch self = Ok (r, self') →
    reachable self'
| reach_margins switch self r self' :
    reachable self → pbc.margins switch self = Ok (r, self') → reachable self'
| reach_filter operation part region value self r self' :
    reachable self → pbc.filter operation part region value self = Ok (r, self') →
    reachable self'
| reach_overlay ov_image part region self r self' :
    reachable self → pbc.overlay world ov_image part region self = Ok (r, self') →
    reachable self'
| reach_image picture part region borders anchor transparency self r self' :
    reachable self →
    pbc.image world picture part region borders anchor transparency self = Ok (r, self') →
    reachable self'
| reach_dimensions part region self r self' :
    reachable self → pbc.dimensions part region self = Ok (r, self') → reachable self'
| reach_save save_location name location self r self' :
    reachable self → pbc.save world save_location name location self = Ok (r, self') →
    reachable self'.

End Vocabulary.

(** ** Further vocabulary *)


(** The flag after [margins(switch)]. *)
Definition flag_after (switch : Switch) (self : Background) : bool :=
  match switch with
  | SwTrue => true
  | SwFalse => false
  | SwNone => negb (_include_margins self)
  | SwReturn | SwOther _ => _include_margins self
  end.

(** [table[part][key]], [None] where a key is missing. *)
Definition entry_at (a : gmap string (gmap string Entry)) (part key : string) : option Entry :=
  a !! part ≫= (.!! key).

(** What no method assigns to: the names, the pristine copy, the layout. *)
Definition origin (self : Background) : string * string * Image * Layout :=
  (image_name self, image_path self, imco self, layout self).

(** [c] leaves the origin of the state alone. *)
Definition stable {A} (c : M A) : Prop :=
  ∀ self a self', c self = Ok (a, self') → origin self' = origin self.



(** The regions of part [full] whose table entry has a rectangle; in
    [header] and [body] every region has one. *)
Definition boxed_regions : list string :=
  ["full"; "top-incl"; "top-excl"; "bottom-incl"; "bottom-excl"; "top"; "bottom"].

(** The pairs [__area_check] resolves to an entry with a rectangle. *)
Definition boxed (part region : string) : Prop :=
  resolved_part part ≠ "full" ∨ resolved_region region ∈ boxed_regions.





#[global] Instance boxed_dec part region : Decision (boxed part region).
Proof. unfold boxed. apply _. Defined.

(** The directory [save] starts from: the class attribute [save_location]
    if it is set, else the directory part of [name]. *)
Definition save_path (save_location name : string) : string :=
  if String.eqb save_location "" then fst (os_path.split name) else save_location.




(** ** Cross-check in binary64

    The model takes products exactly.  Python multiplies floats in
    binary64 and [int] truncates the rounded product; the lines of
    [__init__] that do so, on primitive floats. *)

Module binary64.

(** [int(x)] of a finite float. *)
Definition py_int (x : float) : Z :=
  match Prim2SF x with
  | S754_finite s m e =>
      let n := if 0 <=? e then Z.pos m * 2 ^ e else Z.pos m / 2 ^ (- e) in
      if s then - n else n
  | _ => 0
  end.

Definition of_int (z : Z) : float := PrimFloat.of_uint63 (Uint63.of_Z z).

(** [int(self.height * self.hbratio)] *)
Definition header_height (height : Z) (hbratio : float) : Z :=
  py_int (PrimFloat.mul (of_int height) hbratio).

(** [int(self.height*(1-self.hbratio))] *)
Definition body_height (height : Z) (hbratio : float) : Z :=
  py_int (PrimFloat.mul (of_int height) (PrimFloat.sub 1%float hbratio)).

(** [int(dimension * factor)] *)
Definition thickness (dimension : Z) (factor : float) : Z :=
  py_int (PrimFloat.mul (of_int dimension) factor).

(** The doubles nearest to 0.1, 0.15, 0.2 and 0.7. *)
Definition d0_1 : float := 0x1.999999999999ap-4%float.
Definition d0_15 : float := 0x1.3333333333333p-3%float.
Definition d0_2 : float := 0x1.999999999999ap-3%float.
Definition d0_7 : float := 0x1.6666666666666p-1%float.

End binary64.

(** * Properties *)

Local Open Scope method_scope.

(** ** Running a method step by step *)

Lemma bind_Ok {A B} (c : M A) (k : A → M B) self a self' :
  c self = Ok (a, self') → bind c k self = k a self'.
Proof. unfold bind. by intros ->. Qed.

Lemma bind_Raise {A B} (c : M A) (k : A → M B) self e :
  c self = Raise e → bind c k self = Raise e.
Proof. unfold bind. by intros ->. Qed.

Lemma bind_inv {A B} (c : M A) (k : A → M B) self b self'' :
  bind c k self = Ok (b, self'') →
  ∃ a self', c self = Ok (a, self') ∧ k a self' = Ok (b, self'').
Proof.
  unfold bind. destruct (c self) as [[a self'] | e]; [| done].
  intros Hk. by exists a, self'.
Qed.

(** Membership in a list given by its elements. *)
Ltac in_list :=
  repeat first [apply list_elem_of_here | apply list_elem_of_further].

(** ** Alias binding on tables *)

Lemma in_or_ex_cases switch : in_or_ex switch = "incl" ∨ in_or_ex switch = "excl".
Proof. destruct switch; auto. Qed.

Lemma variant_lookup t side io :
  has_variants t → side ∈ sides → io = "incl" ∨ io = "excl" →
  is_Some (t !! (side +:+ "-" +:+ io)).
Proof.
  unfold has_variants, variants, sides. rewrite !Forall_cons.
  intros Hv Hs Hio.
  repeat (apply elem_of_cons in Hs as [-> | Hs]); [.. | by apply elem_of_nil in Hs];
    destruct Hio as [-> | ->]; simpl; tauto.
Qed.

Lemma side_not_variant side : side ∈ sides → side ∉ variants.
Proof.
  unfold sides, variants. intros Hs Hv.
  repeat (apply elem_of_cons in Hs as [-> | Hs]); [.. | by apply elem_of_nil in Hs];
    repeat (apply elem_of_cons in Hv as [Hv | Hv]; [discriminate |]);
    by apply elem_of_nil in Hv.
Qed.

Lemma insert_side_lookup_variant (t : gmap string Entry) side e k :
  side ∈ sides → k ∈ variants → <[side := e]> t !! k = t !! k.
Proof.
  intros Hs Hk. apply lookup_insert_ne. intros ->. by apply (side_not_variant k).
Qed.

Lemma has_variants_insert (t : gmap string Entry) side e :
  side ∈ sides → has_variants t → has_variants (<[side := e]> t).
Proof.
  unfold has_variants. rewrite !Forall_forall. intros Hs Hv k Hk.
  rewrite insert_side_lookup_variant by done. by apply Hv.
Qed.

Lemma bind_side_variant io t side k :
  side ∈ sides → k ∈ variants → bind_side io t side !! k = t !! k.
Proof.
  intros Hs Hk. unfold bind_side.
  destruct (t !! (side +:+ "-" +:+ io)); [| done].
  by apply insert_side_lookup_variant.
Qed.

Lemma has_variants_bind_side io t side :
  side ∈ sides → has_variants t → has_variants (bind_side io t side).
Proof.
  intros Hs Hv. unfold bind_side.
  destruct (t !! (side +:+ "-" +:+ io)); [| done].
  by apply has_variants_insert.
Qed.

Lemma side_elem_left : "left" ∈ sides. Proof. in_list. Qed.
Lemma side_elem_right : "right" ∈ sides. Proof. in_list. Qed.
Lemma side_elem_top : "top" ∈ sides. Proof. in_list. Qed.
Lemma side_elem_bottom : "bottom" ∈ sides. Proof. in_list. Qed.
Create HintDb pbc.
#[local] Hint Resolve side_elem_left side_elem_right side_elem_top side_elem_bottom
  has_variants_bind_side in_or_ex_cases : pbc.

Lemma has_variants_bind_sides io t : has_variants t → has_variants (bind_sides io t).
Proof. intros Hv. unfold bind_sides, sides; simpl. auto 10 with pbc. Qed.

(** Closed form of [bind_sides]: the four aliases hold the chosen variants
    of the table they were read from. *)
Lemma bind_sides_lookup io t k :
  has_variants t → io = "incl" ∨ io = "excl" →
  bind_sides io t !! k
  = if decide (k ∈ sides) then t !! (k +:+ "-" +:+ io) else t !! k.
Proof.
  intros Hv Hio.
  assert (∀ s, s ∈ sides → ∃ e, t !! (s +:+ "-" +:+ io) = Some e) as Hs.
  { intros s Hs. by apply variant_lookup. }
  destruct (Hs "left") as [e1 H1]; [auto with pbc |].
  destruct (Hs "right") as [e2 H2]; [auto with pbc |].
  destruct (Hs "top") as [e3 H3]; [auto with pbc |].
  destruct (Hs "bottom") as [e4 H4]; [auto with pbc |].
  assert (bind_sides io t
          = <["bottom" := e4]> (<["top" := e3]> (<["right" := e2]> (<["left" := e1]> t)))) as ->.
  { unfold bind_sides, sides; simpl. unfold bind_side at 4. rewrite H1.
    unfold bind_side at 3.
    rewrite insert_side_lookup_variant, H2; [| auto with pbc | ].
    2:{ destruct Hio as [-> | ->]; in_list. }
    unfold bind_side at 2.
    rewrite !insert_side_lookup_variant, H3; [| auto with pbc | | auto with pbc | ].
    2,3: destruct Hio as [-> | ->]; in_list.
    unfold bind_side.
    rewrite !insert_side_lookup_variant, H4; [done | auto with pbc | | auto with pbc | | auto with pbc | ].
    all: destruct Hio as [-> | ->]; in_list. }
  unfold sides. rewrite !lookup_insert.
  repeat case_decide; subst; try done; set_solver.
Qed.

Lemma bind_sides_variant io t k :
  has_variants t → io = "incl" ∨ io = "excl" → k ∉ sides →
  bind_sides io t !! k = t !! k.
Proof. intros Hv Hio Hk. rewrite bind_sides_lookup by done. by case_decide. Qed.

(** Binding the aliases again, for either mode, forgets the earlier
    binding. *)
Lemma side_variant_not_side side io :
  side ∈ sides → io = "incl" ∨ io = "excl" → side +:+ "-" +:+ io ∉ sides.
Proof.
  unfold sides. intros Hs Hio Hin.
  repeat (apply elem_of_cons in Hs as [-> | Hs]); [.. | by apply elem_of_nil in Hs];
    destruct Hio as [-> | ->];
    repeat (apply elem_of_cons in Hin as [Hin | Hin]; [discriminate |]);
    by apply elem_of_nil in Hin.
Qed.

Lemma bind_sides_twice io io' t :
  has_variants t → io = "incl" ∨ io = "excl" → io' = "incl" ∨ io' = "excl" →
  bind_sides io' (bind_sides io t) = bind_sides io' t.
Proof.
  intros Hv Hio Hio'. apply map_eq. intros k.
  rewrite (bind_sides_lookup io' (bind_sides io t)) by auto using has_variants_bind_sides.
  rewrite (bind_sides_lookup io' t) by done.
  case_decide as Hk.
  - apply bind_sides_variant; auto using side_variant_not_side.
  - by apply bind_sides_variant.
Qed.

Lemma parts_ok_lookup a part :
  parts_ok a → part ∈ parts → ∃ t, a !! part = Some t ∧ has_variants t.
Proof. unfold parts_ok. rewrite Forall_forall. auto. Qed.

Lemma bind_all_closed io a tf th tb :
  a !! "full" = Some tf → a !! "header" = Some th → a !! "body" = Some tb →
  bind_all io a
  = <["body" := bind_sides io tb]>
      (<["header" := bind_sides io th]> (<["full" := bind_sides io tf]> a)).
Proof.
  intros Hf Hh Hb. unfold bind_all, parts; simpl.
  unfold bind_part at 3. rewrite Hf.
  unfold bind_part at 2. rewrite lookup_insert_ne, Hh by done.
  unfold bind_part. by rewrite !lookup_insert_ne, Hb by done.
Qed.

Lemma bind_all_lookup io a part :
  parts_ok a →
  bind_all io a !! part
  = if decide (part ∈ parts) then bind_sides io <$> a !! part else a !! part.
Proof.
  intros Ha.
  destruct (parts_ok_lookup a "full" Ha) as (tf & Hf & _); [in_list |].
  destruct (parts_ok_lookup a "header" Ha) as (th & Hh & _); [in_list |].
  destruct (parts_ok_lookup a "body" Ha) as (tb & Hb & _); [in_list |].
  rewrite (bind_all_closed io a tf th tb) by done.
  unfold parts. rewrite !lookup_insert.
  repeat case_decide; subst; rewrite ?Hf, ?Hh, ?Hb; try done; set_solver.
Qed.

Lemma parts_ok_bind_all io a :
  parts_ok a → io = "incl" ∨ io = "excl" → parts_ok (bind_all io a).
Proof.
  intros Ha Hio. unfold parts_ok. rewrite Forall_forall. intros p Hp.
  destruct (parts_ok_lookup a p Ha Hp) as (t & Ht & Hv).
  exists (bind_sides io t). rewrite bind_all_lookup by done.
  rewrite decide_True by done. rewrite Ht. split; [done |].
  by apply has_variants_bind_sides.
Qed.

Lemma bind_all_twice io io' a :
  parts_ok a → io = "incl" ∨ io = "excl" → io' = "incl" ∨ io' = "excl" →
  bind_all io' (bind_all io a) = bind_all io' a.
Proof.
  intros Ha Hio Hio'. apply map_eq. intros p.
  rewrite !bind_all_lookup by auto using parts_ok_bind_all.
  case_decide as Hp; [| done].
  destruct (parts_ok_lookup a p Ha Hp) as (t & -> & Hv). simpl.
  by rewrite bind_sides_twice.
Qed.

(** ** The setter of [include_margins] and [margins] *)

Section Toggle.

Context `{Imaging}.

Lemma bind_alias_first part side io self t :
  area self !! part = Some t → has_variants t → side ∈ sides →
  io = "incl" ∨ io = "excl" →
  pbc.bind_alias part side io self
  = Ok (tt, set_area (<[part := bind_side io t side]> (area self)) self).
Proof.
  intros Ht Hv Hs Hio.
  destruct (variant_lookup t side io Hv Hs Hio) as [e He].
  unfold pbc.bind_alias, bind, area_get, area_set, bind_side.
  by rewrite Ht, He, Ht.
Qed.

Lemma bind_alias_next part side io self a0 t :
  area self = <[part := t]> a0 → has_variants t → side ∈ sides →
  io = "incl" ∨ io = "excl" →
  pbc.bind_alias part side io self
  = Ok (tt, set_area (<[part := bind_side io t side]> a0) self).
Proof.
  intros Ha Hv Hs Hio.
  rewrite (bind_alias_first part side io self t); auto.
  - by rewrite Ha, insert_insert_eq.
  - by rewrite Ha, lookup_insert_eq.
Qed.

(** The four assignments for one part. *)
Lemma bind_alias_part {A} part io self t (k : M A) :
  area self !! part = Some t → has_variants t → io = "incl" ∨ io = "excl" →
  (pbc.bind_alias part "left" io;; pbc.bind_alias part "right" io;;
   pbc.bind_alias part "top" io;; pbc.bind_alias part "bottom" io;; k) self
  = k (set_area (<[part := bind_sides io t]> (area self)) self).
Proof.
  intros Ht Hv Hio.
  erewrite bind_Ok; [| by eapply bind_alias_first; eauto with pbc].
  erewrite bind_Ok; [| by eapply bind_alias_next; eauto with pbc].
  erewrite bind_Ok; [| by eapply bind_alias_next; eauto 6 with pbc].
  erewrite bind_Ok; [| by eapply bind_alias_next; eauto 8 with pbc].
  reflexivity.
Qed.

Lemma setter_spec switch self :
  parts_ok (area self) →
  pbc.include_margins_setter switch self
  = Ok (tt, set_area (bind_all (in_or_ex switch) (area self))
              (announce switch (set_include_margins switch self))).
Proof.
  intros Ha.
  destruct (parts_ok_lookup _ "full" Ha) as (tf & Hf & Hvf); [in_list |].
  destruct (parts_ok_lookup _ "header" Ha) as (th & Hh & Hvh); [in_list |].
  destruct (parts_ok_lookup _ "body" Ha) as (tb & Hb & Hvb); [in_list |].
  rewrite (bind_all_closed _ _ tf th tb) by done.
  unfold pbc.include_margins_setter.
  erewrite bind_Ok; [| reflexivity].
  erewrite bind_Ok; [| reflexivity].
  erewrite (bind_Ok _ _ _ (in_or_ex switch) (announce switch (set_include_margins switch self))).
  2:{ unfold announce, pbc.message, bind, gets, print, modify, ret.
      destruct self as [? ? ? ? ? ? [] ? ?], switch; reflexivity. }
  assert (area (announce switch (set_include_margins switch self)) = area self) as Hsame
    by (by destruct self as [? ? ? ? ? ? [] ? ?]).
  rewrite (bind_alias_part "full" _ _ tf);
    [| by rewrite Hsame | done | apply in_or_ex_cases].
  rewrite Hsame.
  rewrite (bind_alias_part "header" _ _ th);
    [| by (cbn [area set_area]; rewrite lookup_insert_ne) | done | apply in_or_ex_cases].
  erewrite bind_Ok; [| eapply (bind_alias_first "body" _ _ _ tb); eauto with pbc].
  2:{ cbn [area set_area]. by rewrite !lookup_insert_ne. }
  erewrite bind_Ok; [| by eapply bind_alias_next; eauto with pbc].
  erewrite bind_Ok; [| by eapply bind_alias_next; eauto 6 with pbc].
  erewrite bind_alias_next; [| reflexivity | eauto 8 with pbc ..].
  reflexivity.
Qed.

End Toggle.

(** ** The table built by [__init__] *)

Lemma area_table_lookup g part :
  area_table g !! part
  = if decide (part = "full") then Some (full_table g)
    else if decide (part = "header") then Some (header_table g)
    else if decide (part = "body") then Some (body_table g)
    else if decide (part = "__EMERGENCY") then Some ∅
    else None.
Proof.
  unfold area_table, list_to_map; cbn [foldr fst snd].
  rewrite !lookup_insert, lookup_empty.
  repeat case_decide; congruence.
Qed.

Ltac unfold_table :=
  unfold full_table, header_table, body_table, list_to_map; cbn [foldr fst snd].

Lemma has_variants_full_table g : has_variants (full_table g).
Proof.
  unfold has_variants, variants. repeat apply Forall_cons_2; [.. | apply Forall_nil_2].
  all: unfold_table; rewrite !lookup_insert; simpl; eauto.
Qed.

Lemma has_variants_header_table g : has_variants (header_table g).
Proof.
  unfold has_variants, variants. repeat apply Forall_cons_2; [.. | apply Forall_nil_2].
  all: unfold_table; rewrite !lookup_insert; simpl; eauto.
Qed.

Lemma has_variants_body_table g : has_variants (body_table g).
Proof.
  unfold has_variants, variants. repeat apply Forall_cons_2; [.. | apply Forall_nil_2].
  all: unfold_table; rewrite !lookup_insert; simpl; eauto.
Qed.

Lemma parts_ok_area_table g : parts_ok (area_table g).
Proof.
  unfold parts_ok, parts. repeat apply Forall_cons_2; [.. | apply Forall_nil_2].
  - exists (full_table g). split; [by rewrite area_table_lookup |].
    apply has_variants_full_table.
  - exists (header_table g). split; [by rewrite area_table_lookup |].
    apply has_variants_header_table.
  - exists (body_table g). split; [by rewrite area_table_lookup |].
    apply has_variants_body_table.
Qed.

Lemma parts_ok_bound_table g switch : parts_ok (bound_table g switch).
Proof. apply parts_ok_bind_all; [apply parts_ok_area_table | apply in_or_ex_cases]. Qed.

(** The keys of a part's table before any alias is bound. *)
Lemma table_keys g t k :
  t = full_table g ∨ t = header_table g ∨ t = body_table g →
  is_Some (t !! k) ↔ k ∈ (["full"; "inner"] ++ variants)%list.
Proof.
  intros Ht. unfold variants; cbn [app].
  destruct Ht as [-> | [-> | ->]]; unfold_table; rewrite !lookup_insert, lookup_empty.
  all: repeat case_decide; subst;
    (split; [intros Hs; first [by in_list | by destruct Hs] | intros Hin; try by eexists]).
  all: repeat (apply elem_of_cons in Hin as [Hin | Hin]; [congruence |]);
    by apply elem_of_nil in Hin.
Qed.

Lemma bound_keys g t io k :
  t = full_table g ∨ t = header_table g ∨ t = body_table g →
  io = "incl" ∨ io = "excl" →
  is_Some (bind_sides io t !! k) ↔ k ∈ regions.
Proof.
  intros Ht Hio.
  assert (has_variants t) as Hv.
  { destruct Ht as [-> | [-> | ->]];
      auto using has_variants_full_table, has_variants_header_table, has_variants_body_table. }
  rewrite bind_sides_lookup by done. unfold regions.
  case_decide as Hk.
  - split; [intros _ | intros _; by apply variant_lookup].
    rewrite !elem_of_app. auto.
  - rewrite (table_keys g) by done. rewrite !elem_of_app. tauto.
Qed.

(** ** Consistent states and the bound table *)

Lemma consistent_parts_ok self : consistent self → parts_ok (area self).
Proof.
  intros [[[-> _] | ->] _ _ _]; auto using parts_ok_area_table, parts_ok_bound_table.
Qed.

Lemma consistent_rebound self switch :
  consistent self →
  bind_all (in_or_ex switch) (area self) = bound_table (layout self) switch.
Proof.
  intros [[[-> _] | ->] _ _ _]; [done |].
  apply bind_all_twice; auto using parts_ok_area_table, in_or_ex_cases.
Qed.

Lemma bound_table_lookup g switch part :
  bound_table g switch !! part
  = if decide (part ∈ parts) then bind_sides (in_or_ex switch) <$> area_table g !! part
    else area_table g !! part.
Proof. apply bind_all_lookup, parts_ok_area_table. Qed.

Lemma bound_table_part g switch part :
  part ∈ parts →
  ∃ t, (t = full_table g ∨ t = header_table g ∨ t = body_table g)
       ∧ area_table g !! part = Some t
       ∧ bound_table g switch !! part = Some (bind_sides (in_or_ex switch) t).
Proof.
  intros Hp. rewrite bound_table_lookup, decide_True by done.
  rewrite area_table_lookup. unfold parts in Hp.
  repeat (apply elem_of_cons in Hp as [-> | Hp]); [.. | by apply elem_of_nil in Hp];
    simpl; eauto 6.
Qed.

Lemma bound_table_parts g switch part :
  is_Some (delete "__EMERGENCY" (bound_table g switch) !! part) ↔ part ∈ parts.
Proof.
  rewrite lookup_delete, bound_table_lookup, area_table_lookup. unfold parts.
  repeat case_decide; subst; simpl; split; intros Hx;
    try done; try (by eexists); try (by destruct Hx); try by in_list.
  all: repeat (apply elem_of_cons in Hx as [Hx | Hx]; [congruence |]);
    by apply elem_of_nil in Hx.
Qed.

Section Resolution.

Context `{Imaging}.

Lemma margins_toggle_spec self :
  parts_ok (area self) →
  pbc.margins SwNone self
  = Ok (None, set_area (bind_all (in_or_ex (negb (_include_margins self))) (area self))
                (announce (negb (_include_margins self))
                   (set_include_margins (negb (_include_margins self)) self))).
Proof.
  intros Ha. unfold pbc.margins.
  erewrite bind_Ok; [| reflexivity].
  destruct (_include_margins self); (erewrite bind_Ok; [| by apply setter_spec]); done.
Qed.

Lemma area_check_spec part region self :
  consistent self →
  pbc.area_check part region self
  = Ok ((resolved_part part, resolved_region region), checked part region self).
Proof.
  intros Hc. pose proof (consistent_parts_ok self Hc) as Ha.
  unfold pbc.area_check.
  erewrite bind_Ok; [| reflexivity].
  erewrite bind_Ok; [| by apply margins_toggle_spec].
  erewrite bind_Ok; [| apply margins_toggle_spec].
  2:{ cbn [area set_area]. by apply parts_ok_bind_all, in_or_ex_cases. }
  erewrite bind_Ok; [| reflexivity].
  erewrite bind_Ok; [| reflexivity].
  cbn [area set_area set_silent_include set_include_margins announce silent_include
       _include_margins layout stdout image_name image_path im_obj imco negb].
  rewrite negb_involutive.
  rewrite bind_all_twice by auto using in_or_ex_cases.
  rewrite (consistent_rebound self) by done.
  set (a := bound_table _ _).
  rewrite decide_True.
  2:{ subst a. rewrite bound_table_lookup, area_table_lookup. by eexists. }
  erewrite bind_Ok; [| reflexivity].
  assert (delete "__EMERGENCY" a !! "full"
          = Some (bind_sides (in_or_ex (_include_margins self)) (full_table (layout self)))) as Hfull.
  { subst a. rewrite lookup_delete_ne by done.
    by rewrite bound_table_lookup, area_table_lookup. }
  unfold resolved_part, resolved_region, checked, warnings.
  destruct (decide (part ∈ parts)) as [Hp | Hp];
    destruct (decide (region ∈ regions)) as [Hr | Hr].
  - rewrite decide_True by (by apply bound_table_parts).
    erewrite bind_Ok; [| reflexivity].
    erewrite bind_Ok; [| unfold lift; by rewrite Hfull].
    rewrite decide_True by (apply (bound_keys (layout self)); auto using in_or_ex_cases).
    unfold bind, ret. cbn [app]. by rewrite app_nil_r.
  - rewrite decide_True by (by apply bound_table_parts).
    erewrite bind_Ok; [| reflexivity].
    erewrite bind_Ok; [| unfold lift; by rewrite Hfull].
    rewrite decide_False
      by (rewrite (bound_keys (layout self)); auto using in_or_ex_cases).
    reflexivity.
  - rewrite decide_False by (subst a; by rewrite bound_table_parts).
    erewrite bind_Ok; [| reflexivity].
    erewrite bind_Ok; [| unfold lift; by rewrite Hfull].
    rewrite decide_True by (apply (bound_keys (layout self)); auto using in_or_ex_cases).
    reflexivity.
  - rewrite decide_False by (subst a; by rewrite bound_table_parts).
    erewrite bind_Ok; [| reflexivity].
    erewrite bind_Ok; [| unfold lift; by rewrite Hfull].
    rewrite decide_False
      by (rewrite (bound_keys (layout self)); auto using in_or_ex_cases).
    unfold bind, ret, print, modify. cbn [stdout set_stdout app].
    by rewrite <- app_assoc.
Qed.

End Resolution.

(** ** Margin resolution *)

Lemma Qltb_lt a b : Qltb a b = true ↔ (a < b)%Q.
Proof.
  unfold Qltb. rewrite negb_true_iff. split.
  - intros Hb. apply Qnot_le_lt. intros Hle. apply Qle_bool_iff in Hle. congruence.
  - intros Hlt. destruct (Qle_bool b a) eqn:E; [| done].
    apply Qle_bool_iff in E. exfalso. by apply (Qlt_not_le a b).
Qed.

Lemma Qltb_ge a b : Qltb a b = false ↔ (b <= a)%Q.
Proof.
  unfold Qltb. rewrite negb_false_iff. apply Qle_bool_iff.
Qed.

Lemma py_int_floor q : (0 <= q)%Q → py_int q = Qfloor q.
Proof.
  destruct q as [n d]. unfold Qle, py_int, Qfloor; simpl. intros Hn.
  apply Z.quot_div_nonneg; lia.
Qed.


Lemma py_int_nonneg q : (0 <= q)%Q → 0 ≤ py_int q.
Proof.
  intros Hq. rewrite py_int_floor by done.
  change 0 with (Qfloor 0). by apply Qfloor_resp_le.
Qed.

Lemma py_int_le q z : (0 <= q)%Q → (q <= inject_Z z)%Q → py_int q ≤ z.
Proof.
  intros H0 Hq. rewrite py_int_floor by done.
  rewrite <- (Qfloor_Z z). by apply Qfloor_resp_le.
Qed.

Lemma py_int_ge1 q : (1 <= q)%Q → 1 ≤ py_int q.
Proof.
  intros Hq. rewrite py_int_floor by (eapply Qle_trans; [| exact Hq]; done).
  change 1 with (Qfloor 1). by apply Qfloor_resp_le.
Qed.

(** What a successful margin block has established. *)
Lemma margin_block_Ok label limit reported governing v t f :
  margin_block label limit reported governing v = Ok (t, f) →
  (0 <= v)%Q ∧ (v <= inject_Z limit)%Q
  ∧ ((v < 1)%Q ∧ t = py_int (inject_Z governing * v) ∧ f = v
     ∨ (1 <= v)%Q ∧ t = py_int v ∧ governing ≠ 0
       ∧ f = (inject_Z t / inject_Z governing)%Q).
Proof.
  unfold margin_block.
  destruct (Qltb v 0) eqn:E0; [done |].
  destruct (Qltb (inject_Z limit) v) eqn:E1; [done |]. simpl.
  apply Qltb_ge in E0, E1.
  destruct (Qltb v 1) eqn:E2.
  - apply Qltb_lt in E2. intros [= <- <-]. auto 10.
  - apply Qltb_ge in E2. destruct (governing =? 0) eqn:E3; [done |].
    apply Z.eqb_neq in E3. intros [= <- <-]. auto 10.
Qed.

(** A margin block raises the boundary error exactly when the value is
    negative or above the limit it is tested against. *)
Lemma margin_block_ValueError label limit reported governing v :
  (v < 0)%Q ∨ (inject_Z limit < v)%Q ↔
  margin_block label limit reported governing v = Raise (ValueError label reported v).
Proof.
  unfold margin_block. split.
  - intros [Hv | Hv]; apply Qltb_lt in Hv; rewrite Hv; [done |].
    by rewrite orb_true_r.
  - destruct (Qltb v 0) eqn:E0; [apply Qltb_lt in E0; auto |].
    destruct (Qltb (inject_Z limit) v) eqn:E1; [apply Qltb_lt in E1; auto |]. simpl.
    destruct (Qltb v 1); [done |]. by destruct (governing =? 0).
Qed.

Lemma inject_Z_nonneg z : (0 <= inject_Z z)%Q → 0 ≤ z.
Proof. unfold Qle, inject_Z; simpl. lia. Qed.

(** Where the limit is the governing dimension, the thickness lies within
    it. *)
Lemma margin_block_bounds label reported governing v t f :
  margin_block label governing reported governing v = Ok (t, f) →
  0 ≤ t ≤ governing.
Proof.
  intros (H0 & Hlim & Hcase)%margin_block_Ok.
  assert (0 ≤ governing) as Hg by (apply inject_Z_nonneg; by eapply Qle_trans).
  assert (0 <= inject_Z governing)%Q as HgQ by (by eapply Qle_trans).
  destruct Hcase as [(H1 & -> & _) | (H1 & -> & _)].
  - split.
    + apply py_int_nonneg. by apply Qmult_le_0_compat.
    + apply py_int_le; [by apply Qmult_le_0_compat |].
      rewrite Qmult_comm. rewrite <- (Qmult_1_l (inject_Z governing)) at 2.
      apply Qmult_le_compat_r; [by apply Qlt_le_weak | done].
  - split; [pose proof (py_int_ge1 v H1); lia | by apply py_int_le].
Qed.



(** ** What a successful construction has computed *)

Lemma init_layout_Ok im_size margins g :
  init_layout im_size margins = Ok g →
  width g = fst im_size ∧ height g = snd im_size
  ∧ hbratio g = default (2 # 10)%Q (kw_num margins !! "hbratio")
  ∧ header_width g = fst im_size
  ∧ header_height g = py_int (inject_Z (snd im_size) * hbratio g)
  ∧ body_width g = fst im_size
  ∧ body_height g = py_int (inject_Z (snd im_size) * (1 - hbratio g))
  ∧ ∀ a s,
      margin_block (dimension_label a s) (tested_against g a s) (governing g a s)
        (governing g a s) (supplied margins a s)
      = Ok (thickness g a s, thickness_factor g a s).
Proof.
  unfold init_layout, rbind.
  repeat match goal with
         | |- context [margin_block ?l ?x ?y ?z ?v] =>
             let E := fresh "E" in
             destruct (margin_block l x y z v) as [[? ?] |] eqn:E; [| done]
         end.
  intros [= <-]; cbn [width height hbratio header_width header_height body_width body_height].
  repeat split. intros [] []; assumption.
Qed.

(** ** Geometry of an area *)

Ltac unfold_rects :=
  unfold subrect, tiles, in_box, area_rect, inner_rect, inclusive, exclusive,
    header_rect, body_rect, header_cont_rect, body_cont_rect,
    header_margin_left_inclusive, header_margin_right_inclusive,
    header_margin_top_inclusive, header_margin_bottom_inclusive,
    header_margin_left_exclusive, header_margin_right_exclusive,
    header_margin_top_exclusive, header_margin_bottom_exclusive,
    body_margin_left_inclusive, body_margin_right_inclusive,
    body_margin_top_inclusive, body_margin_bottom_inclusive,
    body_margin_left_exclusive, body_margin_right_exclusive,
    body_margin_top_exclusive, body_margin_bottom_exclusive in *;
  unfold header_cont_height in *; cbv beta iota in *.



(** * The claims *)

(** C1 (the constructor tests [body_top] and [body_bottom] against the
    body width).  On a 1000x800 image the body is 640 high, yet
    [body_top=700] is accepted; on a 100x1000 image the body is 800 high,
    yet [body_top=200] raises the boundary error, which reports
    "Body height" 800 for the value 200. *)
Theorem body_top_tested_against_width :
  (∃ g, init_layout (1000, 800) (mkKwargs {["body_top" := inject_Z 700]} ∅) = Ok g
        ∧ governing g body_area top_side = 640
        ∧ thickness g body_area top_side = 700)
  ∧ init_layout (100, 1000) (mkKwargs {["body_top" := inject_Z 200]} ∅)
    = Raise (ValueError "Body height" 800 (inject_Z 200)).
Proof. split; [eexists; split; [vm_compute; reflexivity |] |]; by vm_compute. Qed.

(** C3: on a 1000x800 image with the default margins and [hbratio] 0.2 the
    header is 160 high and the body 640; the header's [inner] rectangle is
    (100, 32, 900, 128) and the body's is (150, 224, 850, 736). *)
Theorem scenario_1000x800 margins :
  margins = no_kwargs ∨ margins = mkKwargs {["hbratio" := (2 # 10)%Q]} ∅ →
  ∃ g, init_layout (1000, 800) margins = Ok g
       ∧ header_height g = 160 ∧ body_height g = 640
       ∧ header_cont_rect g = (100, 32, 900, 128)
       ∧ body_cont_rect g = (150, 224, 850, 736)
       ∧ header_table g !! "inner" = Some (Entry3 (800, 96) (100, 32) (100, 32, 900, 128))
       ∧ body_table g !! "inner" = Some (Entry3 (700, 512) (150, 224) (150, 224, 850, 736)).
Proof.
  intros [-> | ->]; (eexists; split; [vm_compute; reflexivity |]); by vm_compute.
Qed.

Lemma scenario_1000x800_witness :
  ∃ g, init_layout (1000, 800) no_kwargs = Ok g
       ∧ header_height g = 160 ∧ body_height g = 640
       ∧ header_cont_rect g = (100, 32, 900, 128)
       ∧ body_cont_rect g = (150, 224, 850, 736)
       ∧ header_table g !! "inner" = Some (Entry3 (800, 96) (100, 32) (100, 32, 900, 128))
       ∧ body_table g !! "inner" = Some (Entry3 (700, 512) (150, 224) (150, 224, 850, 736)).
Proof. apply (scenario_1000x800 no_kwargs). left. reflexivity. Defined.

Lemma init_layout_1000x800 : init_layout (1000, 800) no_kwargs = Ok layout_1000x800.
Proof. by vm_compute. Qed.






(** ** Model states: construction and the double toggle *)

Section States.

Context `{Imaging}.

Lemma init_consistent world name margins self :
  pbc.init world name margins = Ok self → consistent self.
Proof.
  unfold pbc.init, rbind.
  destruct (Image_open world name) as [im |]; [| done].
  destruct (init_layout (size im) margins) as [g |] eqn:Hg; [| done].
  apply init_layout_Ok in Hg as (Hw & Hh & _).
  intros [= <-]. split; cbn; auto.
  rewrite Hw, Hh. unfold PIL.copy. by destruct (size im).
Qed.



Lemma checked_consistent part region self :
  consistent self → consistent (checked part region self).
Proof. intros [_ Hm Hs Hd]. split; cbn; auto. Qed.

Lemma resolve_spec part region self :
  consistent self →
  resolve part region self
  = area_get (resolved_part part) (resolved_region region) (checked part region self).
Proof.
  intros Hc. unfold resolve. erewrite bind_Ok; [| by apply area_check_spec]. done.
Qed.


End States.

Lemma demo_model_init : pbc.init demo_world "pic.png" no_kwargs = Ok demo_model.
Proof.
  unfold pbc.init, rbind.
  change (Image_open demo_world "pic.png") with (Ok demo_image).
  cbv beta iota.
  change (size demo_image) with (1000, 800).
  by rewrite init_layout_1000x800.
Qed.



(** C5: region resolution never raises.  A part other than [full],
    [header], [body] is replaced by [full] and a warning printed; a region
    that is no key of the table is replaced by [full] and a warning
    printed; the entry of [('full', 'full')] holds the rectangle of the
    whole image. *)
Theorem resolution_never_raises self part region :
  consistent self →
  ∃ self',
    pbc.area_check part region self
    = Ok ((if decide (part ∈ parts) then part else "full",
           if decide (region ∈ regions) then region else "full"), self')
    ∧ stdout self'
      = (stdout self
         ++ (if decide (part ∈ parts) then []
             else ["Undefined part of the image specified: " +:+ part])
         ++ (if decide (region ∈ regions) then []
             else ["Undefined region of the image part specified: " +:+ region]))%list
    ∧ area_get "full" "full" self'
      = Ok (Entry3 (size (im_obj self')) (0, 0) (bounds (im_obj self')), self').
Proof.
  intros Hc. exists (checked part region self).
  split; [by apply area_check_spec |]. split; [done |].
  unfold area_get. cbn [area checked im_obj].
  rewrite bound_table_lookup, area_table_lookup, decide_True by in_list.
  cbn [decide fmap option_fmap option_map].
  rewrite decide_True by done. cbn [fmap option_fmap option_map].
  rewrite bind_sides_variant;
    [| apply has_variants_full_table | apply in_or_ex_cases | ].
  2:{ unfold sides. intros Hin.
      repeat (apply elem_of_cons in Hin as [Hin | Hin]; [discriminate |]).
      by apply elem_of_nil in Hin. }
  unfold_table. rewrite lookup_insert_eq.
  unfold bounds, image_size.
  by rewrite (consistent_size self Hc), (consistent_dims self Hc).
Qed.

Lemma resolution_never_raises_witness :
  ∃ self',
    pbc.area_check "footer" "middle" demo_model
    = Ok ((if decide ("footer" ∈ parts) then "footer" else "full",
           if decide ("middle" ∈ regions) then "middle" else "full"), self')
    ∧ stdout self'
      = (stdout demo_model
         ++ (if decide ("footer" ∈ parts) then []
             else ["Undefined part of the image specified: " +:+ "footer"])
         ++ (if decide ("middle" ∈ regions) then []
             else ["Undefined region of the image part specified: " +:+ "middle"]))%list
    ∧ area_get "full" "full" self'
      = Ok (Entry3 (size (im_obj self')) (0, 0) (bounds (im_obj self')), self').
Proof.
  apply (resolution_never_raises demo_model "footer" "middle").
  split; [left; split; reflexivity | reflexivity | reflexivity | reflexivity].
Defined.

(** ** Looking an entry up after resolution *)

Lemma area_get_bound self g switch part region t :
  area self = bound_table g switch → part ∈ parts → area_table g !! part = Some t →
  area_get part region self
  = match bind_sides (in_or_ex switch) t !! region with
    | Some e => Ok (e, self)
    | None => Raise (KeyError region)
    end.
Proof.
  intros Ha Hp Ht. unfold area_get.
  by rewrite Ha, bound_table_lookup, decide_True, Ht by done.
Qed.

Lemma resolved_part_elem part : resolved_part part ∈ parts.
Proof. unfold resolved_part. case_decide; [done | in_list]. Qed.

Lemma table_origin g t k sz o r :
  t = full_table g ∨ t = header_table g ∨ t = body_table g →
  t !! k = Some (Entry3 sz o r) → o = topleft r.
Proof.
  intros [-> | [-> | ->]]; unfold_table; rewrite !lookup_insert, lookup_empty;
    repeat case_decide; intros [= <- <- <-]; reflexivity.
Qed.

Section Lookup.

Context `{Imaging}.

(** What a successful resolution says about the table: any state that
    holds the bound table of the same layout and flag yields the same
    entry. *)
Lemma resolve_Ok part region self e :
  consistent self →
  outcome (resolve part region self) = Ok e →
  (∀ self', area self' = bound_table (layout self) (_include_margins self) →
            area_get (resolved_part part) (resolved_region region) self' = Ok (e, self'))
  ∧ (∀ sz o r, e = Entry3 sz o r → o = topleft r).
Proof.
  intros Hc. rewrite resolve_spec by done.
  destruct (bound_table_part (layout self) (_include_margins self) (resolved_part part))
    as (t & Ht & Hpart & _); [apply resolved_part_elem |].
  rewrite (area_get_bound _ (layout self) (_include_margins self) _ _ t);
    [| done | apply resolved_part_elem | done].
  destruct (bind_sides _ t !! resolved_region region) as [e' |] eqn:He; [| done].
  intros [= ->]. split.
  - intros self' Ha.
    rewrite (area_get_bound _ (layout self) (_include_margins self) _ _ t);
      [by rewrite He | done | apply resolved_part_elem | done].
  - intros sz o r ->.
    assert (has_variants t) as Hv.
    { destruct Ht as [-> | [-> | ->]];
        auto using has_variants_full_table, has_variants_header_table,
          has_variants_body_table. }
    rewrite bind_sides_lookup in He by auto using in_or_ex_cases.
    case_decide; by eapply table_origin.
Qed.


End Lookup.

(** C10 (the placeholder entries of part [full] are pairs): for the pair
    [('full', 'inner')], which resolution accepts, [filter] indexes the
    entry at position 2 and raises [IndexError], whatever the operation. *)
Theorem filter_full_inner_raises `{Imaging} self operation value :
  consistent self →
  outcome (resolve "full" "inner" self) = Ok (Entry2 (20, 20) (20, 20))
  ∧ pbc.filter operation "full" "inner" value self = Raise IndexError.
Proof.
  intros Hc.
  assert (resolved_part "full" = "full") as Hp
    by (unfold resolved_part; by rewrite decide_True by in_list).
  assert (resolved_region "inner" = "inner") as Hr
    by (unfold resolved_region; by rewrite decide_True by in_list).
  assert (∀ self', area self' = bound_table (layout self) (_include_margins self) →
                   area_get "full" "inner" self' = Ok (Entry2 (20, 20) (20, 20), self')) as Hget.
  { intros self' Ha.
    rewrite (area_get_bound _ (layout self) (_include_margins self) _ _ (full_table (layout self)));
      [| done | in_list | by rewrite area_table_lookup].
    rewrite bind_sides_variant;
      [| apply has_variants_full_table | apply in_or_ex_cases | ].
    2:{ unfold sides. intros Hin.
        repeat (apply elem_of_cons in Hin as [Hin | Hin]; [discriminate |]).
        by apply elem_of_nil in Hin. }
    unfold_table. by rewrite lookup_insert_ne, lookup_insert_eq by done. }
  split.
  - rewrite resolve_spec, Hp, Hr by done. by rewrite Hget.
  - unfold pbc.filter.
    erewrite bind_Ok; [| by apply area_check_spec].
    rewrite Hp, Hr.
    destruct (pbc.Filter_options operation value).
    + erewrite bind_Ok; [| reflexivity].
      erewrite bind_Ok; [| by apply Hget].
      by apply bind_Raise.
    + erewrite bind_Ok; [| reflexivity].
      erewrite bind_Ok; [| by apply Hget].
      by apply bind_Raise.
Qed.

Lemma filter_full_inner_raises_witness :
  outcome (resolve "full" "inner" demo_model) = Ok (Entry2 (20, 20) (20, 20))
  ∧ pbc.filter (H := plain_imaging) (Some "blur") "full" "inner" 6 demo_model
    = Raise IndexError.
Proof.
  apply (filter_full_inner_raises (H := plain_imaging) demo_model (Some "blur") 6).
  split; [left; split; reflexivity | reflexivity | reflexivity | reflexivity].
Defined.

(** ** Pixels under crop and paste *)



Section Pixels.

Context `{Imaging}.






Lemma crop_size im box : size (PIL.crop im box) = boxsize box.
Proof. by destruct box as [[[x0 y0] x1] y1]. Qed.

End Pixels.

(** ** [filter] *)

Section Filter.

Context `{Imaging}.


End Filter.



(** ** [image] *)

Section ImagePaste.

Context `{Imaging}.
Variable world : World.




End ImagePaste.



(** ** [save] *)

(** C9, as the code has it: a [save] that hands a file to the image
    library names it ['pbc-'] followed by the base name of the [name]
    argument, whose extension also gives the format ([jpg] read as
    [jpeg]). *)
Theorem saved_name_from_argument world save_location name location self saved :
  outcome (pbc.save world save_location name location self) = Ok (Some saved) →
  ∃ n, name = Some n
       ∧ saved_name saved = "pbc-" +:+ snd (os_path.split n)
       ∧ saved_format saved
         = (if String.eqb (last_dot_field (snd (os_path.split n))) "jpg" then "jpeg"
            else last_dot_field (snd (os_path.split n))).
Proof.
  destruct (pbc.save world save_location name location self) as [[r self'] |] eqn:Hrun;
    [| done].
  intros [= ->]. revert Hrun.
  unfold pbc.save. destruct name as [n |]; [| done].
  intros Hrun. exists n. split; [done |].
  apply bind_inv in Hrun as (? & s1 & [= <- <-] & Hrun).
  apply bind_inv in Hrun as (? & s2 & [= <- <-] & Hrun).
  apply bind_inv in Hrun as (path & s3 & _ & Hrun).
  destruct path as [path |]; [| done].
  apply bind_inv in Hrun as (? & s4 & _ & Hrun).
  by injection Hrun as <- <-.
Qed.

Lemma saved_name_from_argument_witness :
  ∃ n, Some "slides/out.jpg" = Some n
       ∧ saved_name (mkSaved "slides" "pbc-out.jpg" "jpeg") = "pbc-" +:+ snd (os_path.split n)
       ∧ saved_format (mkSaved "slides" "pbc-out.jpg" "jpeg")
         = (if String.eqb (last_dot_field (snd (os_path.split n))) "jpg" then "jpeg"
            else last_dot_field (snd (os_path.split n))).
Proof.
  apply (saved_name_from_argument demo_world "" (Some "slides/out.jpg") [] demo_model
           (mkSaved "slides" "pbc-out.jpg" "jpeg")).
  vm_compute. reflexivity.
Defined.

(** C9 as stated fails: the model loaded from [pic.png] saves
    [slides/out.jpg] as [pbc-out.jpg], not as [pbc-pic.png]. *)
Lemma saved_name_is_not_the_loaded_name :
  outcome (pbc.save demo_world "" (Some "slides/out.jpg") [] demo_model)
  = Ok (Some (mkSaved "slides" "pbc-out.jpg" "jpeg"))
  ∧ image_name demo_model = "pic.png"
  ∧ "pbc-out.jpg" ≠ "pbc-" +:+ image_name demo_model.
Proof. split; [by vm_compute |]. split; [reflexivity | discriminate]. Qed.

(** ** Every operation keeps a model consistent *)

Ltac kept := split; [| split; [reflexivity | exact I]].

Lemma keeps_bind {A B} P (c : M A) Q (k : A → M B) R :
  keeps P c Q → (∀ a, keeps (λ co, P co ∧ Q co a) (k a) R) → keeps P (bind c k) R.
Proof.
  intros Hc Hk self b self'' Hcons HP Hrun.
  apply bind_inv in Hrun as (a & self' & Hrun1 & Hrun2).
  destruct (Hc _ _ _ Hcons HP Hrun1) as (Hcons' & Hco & HQ).
  destruct (Hk a _ _ _ Hcons' (conj (eq_ind_r P HP Hco) (eq_ind_r (λ co, Q co a) HQ Hco)) Hrun2)
    as (Hcons'' & Hco' & HR).
  rewrite Hco in Hco', HR. auto.
Qed.

Lemma keeps_post {A} P (c : M A) (Q Q' : Image → A → Prop) :
  keeps P c Q → (∀ co a, P co → Q co a → Q' co a) → keeps P c Q'.
Proof.
  intros Hc HQ self a self' Hcons HP Hrun.
  destruct (Hc _ _ _ Hcons HP Hrun) as (? & ? & ?). auto.
Qed.

Lemma keeps_ret {A} P (a : A) (Q : Image → A → Prop) :
  (∀ co, P co → Q co a) → keeps P (ret a) Q.
Proof. intros HQ self a' self' Hcons HP [= <- <-]. auto. Qed.

Lemma keeps_gets {A} P (f : Background → A) (Q : Image → A → Prop) :
  (∀ self, consistent self → P (imco self) → Q (imco self) (f self)) →
  keeps P (gets f) Q.
Proof. intros HQ self a' self' Hcons HP [= <- <-]. auto. Qed.

Lemma keeps_raise {A} P e (Q : Image → A → Prop) : keeps P (raise e) Q.
Proof. by intros self a self' _ _ ?. Qed.

Lemma keeps_lift {A} P (r : Result A) : keeps P (lift r) any.
Proof.
  intros self a self' Hcons _. unfold lift. destruct r; [| done].
  intros [= <- <-]. by kept.
Qed.

Lemma keeps_print P line : keeps P (print line) any.
Proof.
  intros self a self' [Ha Hm Hs Hd] _ [= <- <-]. kept. by split.
Qed.

Lemma keeps_area_get P part region : keeps P (area_get part region) any.
Proof.
  intros self a self' Hcons _. unfold area_get.
  destruct (area self !! part) as [t |]; [| done].
  destruct (t !! region); [| done]. intros [= <- <-]. by kept.
Qed.

(** Replacing the working buffer by an image of the same mode and size. *)
Lemma keeps_set_im_obj P canvas :
  (∀ co, P co → fits co canvas) → keeps P (modify (set_im_obj canvas)) any.
Proof.
  intros Hfit self a self' [Ha Hm Hs Hd] HP [= <- <-].
  destruct (Hfit _ HP) as [Hmode Hsize]. kept. by split.
Qed.

Section Keeps.

Context `{Imaging}.
Variable world : World.

Lemma fits_paste co dst src coord mask :
  fits co dst → fits co (PIL.paste dst src coord mask).
Proof. done. Qed.

Lemma keeps_setter P switch : keeps P (pbc.include_margins_setter switch) any.
Proof.
  intros self a self' Hcons _.
  rewrite setter_spec by (by apply consistent_parts_ok).
  intros [= <- <-].
  rewrite (consistent_rebound self switch Hcons).
  destruct Hcons as [_ Hm Hs Hd].
  destruct self as [? ? ? ? ? ? [] ? ?]; (kept; split; [by right | done ..]).
Qed.

Lemma keeps_margins P switch : keeps P (pbc.margins switch) any.
Proof.
  destruct switch; unfold pbc.margins.
  - eapply keeps_bind; [apply keeps_setter | intros; by apply keeps_ret].
  - eapply keeps_bind; [apply keeps_setter | intros; by apply keeps_ret].
  - eapply keeps_bind; [by apply (keeps_gets _ _ any) | intros; by apply keeps_ret].
  - eapply keeps_bind; [by apply (keeps_gets _ _ any) | intros flag].
    eapply keeps_bind; [| intros; by apply keeps_ret].
    destruct flag; apply keeps_setter.
  - eapply keeps_bind; [apply keeps_print | intros; by apply keeps_ret].
Qed.

Lemma keeps_area_check P part region : keeps P (pbc.area_check part region) any.
Proof.
  intros self a self' Hcons _. rewrite area_check_spec by done.
  intros [= <- <-]. kept. by apply checked_consistent.
Qed.

Lemma keeps_message_applied P operator operation part region :
  keeps P (pbc.message_applied operator operation part region) any.
Proof.
  eapply keeps_bind; [by apply (keeps_gets _ _ any) | intros; apply keeps_print].
Qed.

Lemma keeps_try_open_image P name part region :
  keeps P (pbc.try_open_image world name part region) any.
Proof.
  unfold pbc.try_open_image. destruct (Image_open world name).
  - by apply keeps_ret.
  - eapply keeps_bind; [apply keeps_area_get | intros; by apply keeps_ret].
Qed.

Lemma keeps_paste_image P canvas image part region coords :
  (∀ co, P co → fits co canvas) →
  keeps P (pbc.paste_image canvas image part region coords) fits.
Proof.
  intros Hfit. unfold pbc.paste_image.
  destruct (String.eqb (mode image) "RGB"); [| destruct (String.eqb (mode image) "RGBA")].
  - destruct coords.
    + apply keeps_ret. intros co HP. by apply fits_paste, Hfit.
    + eapply keeps_bind; [apply keeps_area_get | intros e].
      apply keeps_ret. intros co [HP _]. by apply fits_paste, Hfit.
  - destruct coords.
    + apply keeps_ret. intros co HP. by apply fits_paste, Hfit.
    + eapply keeps_bind; [apply keeps_area_get | intros e].
      apply keeps_ret. intros co [HP _]. by apply fits_paste, Hfit.
  - eapply keeps_bind; [apply keeps_print | intros ?].
    apply keeps_ret. intros co [HP _]. by apply Hfit.
Qed.

Lemma keeps_gets_im_obj P : keeps P (gets im_obj) fits.
Proof. apply keeps_gets. intros self [_ Hm Hs _] _. by split. Qed.

(** The public methods. *)
Theorem filter_consistent operation part region value self r self' :
  consistent self →
  pbc.filter operation part region value self = Ok (r, self') → consistent self'.
Proof.
  intros Hcons Hrun.
  assert (keeps (λ _, True) (pbc.filter operation part region value) any) as Hk.
  { unfold pbc.filter.
    eapply keeps_bind; [apply keeps_area_check | intros [p rg]].
    eapply keeps_bind.
    { instantiate (1 := any).
      destruct (pbc.Filter_options operation value); [by apply keeps_ret |].
      eapply keeps_bind; [apply keeps_print | intros; by apply keeps_ret]. }
    intros op. eapply keeps_bind; [apply keeps_area_get | intros e].
    eapply keeps_bind; [apply keeps_lift | intros rect].
    eapply keeps_bind.
    { instantiate (1 := any). case_decide; by apply keeps_gets. }
    intros source. eapply keeps_bind; [apply keeps_area_get | intros e'].
    eapply keeps_bind; [| intros; apply keeps_message_applied].
    instantiate (1 := any).
    intros s a s' [Ha Hm Hs Hd] _ [= <- <-]. kept. by split. }
  by destruct (Hk self r self' Hcons I Hrun).
Qed.

Theorem overlay_consistent ov_image part region self r self' :
  consistent self →
  pbc.overlay world ov_image part region self = Ok (r, self') → consistent self'.
Proof.
  intros Hcons Hrun.
  assert (keeps (λ _, True) (pbc.overlay world ov_image part region) any) as Hk.
  { unfold pbc.overlay.
    eapply keeps_bind; [apply keeps_area_check | intros [p rg]].
    eapply keeps_bind.
    { instantiate (1 := any). destruct ov_image as [| t | name].
      - eapply keeps_bind; [apply keeps_area_get | intros; by apply keeps_ret].
      - destruct ((length t <? 3)%nat || (4 <? length t)%nat).
        + eapply keeps_bind; [apply keeps_print | intros ?].
          eapply keeps_bind; [apply keeps_area_get | intros; by apply keeps_ret].
        + eapply keeps_bind; [apply keeps_area_get | intros; by apply keeps_ret].
      - apply keeps_try_open_image. }
    intros [ov op].
    eapply keeps_bind; [apply keeps_gets_im_obj | intros canvas].
    eapply keeps_bind; [apply keeps_paste_image; by intros co [_ ?] | intros canvas'].
    eapply keeps_bind; [apply keeps_set_im_obj; by intros co [_ ?] | intros ?].
    apply keeps_message_applied. }
  by destruct (Hk self r self' Hcons I Hrun).
Qed.

Theorem image_consistent picture part region borders anchor transparency self r self' :
  consistent self →
  pbc.image world picture part region borders anchor transparency self = Ok (r, self') →
  consistent self'.
Proof.
  intros Hcons Hrun.
  assert (keeps (λ _, True)
            (pbc.image world picture part region borders anchor transparency) any) as Hk.
  { unfold pbc.image.
    eapply keeps_bind; [apply keeps_area_check | intros [p rg]].
    eapply keeps_bind; [by apply (keeps_gets _ _ any) | intros g].
    eapply keeps_bind.
    { instantiate (1 := any). destruct picture as [name |].
      - eapply keeps_bind; [apply keeps_try_open_image | intros [im op]; by apply keeps_ret].
      - eapply keeps_bind; [apply keeps_print | intros; by apply keeps_ret]. }
    intros [pic op].
    eapply keeps_bind; [by apply (keeps_gets _ _ fits); intros ? [] | intros image_copy].
    eapply keeps_bind.
    { instantiate (1 := any). destruct borders as [[] |].
      - eapply keeps_bind.
        { instantiate (1 := any). destruct anchor.
          - eapply keeps_bind; [apply keeps_paste_image; by intros co [_ ?] | ].
            intros; by apply keeps_ret.
          - eapply keeps_bind; [apply keeps_paste_image; by intros co [_ ?] | ].
            intros; by apply keeps_ret. }
        intros [copy' op']. eapply keeps_bind; [apply keeps_area_get | intros e].
        eapply keeps_bind; [apply keeps_lift | intros rect].
        eapply keeps_bind; [apply keeps_gets_im_obj | intros canvas].
        eapply keeps_bind; [apply keeps_paste_image; by intros co [_ ?] | intros canvas'].
        eapply keeps_bind; [apply keeps_set_im_obj; by intros co [_ ?] | intros ?].
        by apply keeps_ret.
      - eapply keeps_bind; [apply keeps_gets_im_obj | intros canvas].
        eapply keeps_bind; [apply keeps_paste_image; by intros co [_ ?] | intros canvas'].
        eapply keeps_bind; [apply keeps_set_im_obj; by intros co [_ ?] | intros ?].
        by apply keeps_ret.
      - eapply keeps_bind; [apply keeps_print | intros; by apply keeps_ret]. }
    intros [op' |]; [apply keeps_message_applied | apply keeps_raise]. }
  by destruct (Hk self r self' Hcons I Hrun).
Qed.

Theorem margins_consistent switch self r self' :
  consistent self → pbc.margins switch self = Ok (r, self') → consistent self'.
Proof.
  intros Hcons Hrun.
  by destruct (keeps_margins (λ _, True) switch self r self' Hcons I Hrun).
Qed.

Theorem include_margins_consistent switch self r self' :
  consistent self →
  pbc.include_margins_setter switch self = Ok (r, self') → consistent self'.
Proof.
  intros Hcons Hrun.
  by destruct (keeps_setter (λ _, True) switch self r self' Hcons I Hrun).
Qed.

Theorem dimensions_consistent part region self r self' :
  consistent self → pbc.dimensions part region self = Ok (r, self') → consistent self'.
Proof.
  intros Hcons Hrun.
  assert (keeps (λ _, True) (pbc.dimensions part region) any) as Hk.
  { unfold pbc.dimensions.
    eapply keeps_bind; [apply keeps_area_check | intros [p rg]].
    eapply keeps_bind; [apply keeps_area_get | intros; by apply keeps_ret]. }
  by destruct (Hk self r self' Hcons I Hrun).
Qed.

End Keeps.

(** ** The states a program can bring a model into *)

Section Reachable.

Context `{Imaging}.
Variable world : World.

Lemma save_consistent save_location name location self r self' :
  consistent self →
  pbc.save world save_location name location self = Ok (r, self') → consistent self'.
Proof.
  intros Hcons Hrun.
  assert (keeps (λ _, True) (pbc.save world save_location name location) any) as Hk.
  { unfold pbc.save.
    eapply keeps_bind; [apply keeps_lift | intros n].
    eapply keeps_bind; [by apply (keeps_gets _ _ any) | intros self_name].
    eapply keeps_bind.
    { instantiate (1 := any).
      destruct location, (String.eqb _ ""); try by apply keeps_ret.
      - destruct (path_exists world _); [by apply keeps_ret |].
        eapply keeps_bind; [apply keeps_print | intros ?].
        eapply keeps_bind; [apply keeps_print | intros; by apply keeps_ret].
      - eapply keeps_bind; [apply keeps_lift | intros path].
        destruct (path_exists world path); [by apply keeps_ret |].
        eapply keeps_bind; [apply keeps_print | intros ?].
        eapply keeps_bind; [apply keeps_print | intros; by apply keeps_ret].
      - eapply keeps_bind; [apply keeps_lift | intros joined].
        eapply keeps_bind; [apply keeps_print | intros ?].
        eapply keeps_bind; [apply keeps_print | intros; by apply keeps_ret]. }
    intros [path |]; [| by apply keeps_ret].
    eapply keeps_bind; [apply keeps_print | intros; by apply keeps_ret]. }
  by destruct (Hk self r self' Hcons I Hrun).
Qed.

Theorem reachable_consistent self : reachable world self → consistent self.
Proof.
  induction 1 as [name margins self Hinit
                 | ? ? ? ? _ IH Hrun | ? ? ? ? _ IH Hrun | ? ? ? ? ? ? ? _ IH Hrun
                 | ? ? ? ? ? ? _ IH Hrun | ? ? ? ? ? ? ? ? ? _ IH Hrun
                 | ? ? ? ? ? _ IH Hrun | ? ? ? ? ? ? _ IH Hrun].
  - by eapply init_consistent.
  - by eapply include_margins_consistent.
  - by eapply margins_consistent.
  - by eapply filter_consistent.
  - by eapply overlay_consistent.
  - by eapply image_consistent.
  - by eapply dimensions_consistent.
  - by eapply save_consistent.
Qed.

End Reachable.

(** ** Cross-check in binary64 *)

(** The numbers of the 1000x800 scenario and of the 1000x801 image are the
    same in binary64 as in the model. *)
Lemma scenario_numbers_binary64 :
  binary64.header_height 800 binary64.d0_2 = header_height layout_1000x800
  ∧ binary64.body_height 800 binary64.d0_2 = body_height layout_1000x800
  ∧ binary64.thickness 1000 binary64.d0_1 = header_margin_left_thickness layout_1000x800
  ∧ binary64.thickness 160 binary64.d0_2 = header_margin_top_thickness layout_1000x800
  ∧ binary64.thickness 1000 binary64.d0_15 = body_margin_left_thickness layout_1000x800
  ∧ binary64.thickness 640 binary64.d0_1 = body_margin_top_thickness layout_1000x800
  ∧ binary64.header_height 801 binary64.d0_2 = 160
  ∧ binary64.body_height 801 binary64.d0_2 = 640.
Proof. by vm_compute. Qed.

(** Where the two differ: the product of 10 and the double nearest 0.7 is
    just below 7 and truncates to 6, while its binary64 rounding is 7.  The
    thickness of a fraction is the truncation of the product as the program
    computes it. *)
Remark rounded_product_binary64 :
  binary64.thickness 10 binary64.d0_7 = 7
  ∧ py_int (inject_Z 10 * (6305039478318694 # 9007199254740992)) = 6.
Proof. by vm_compute. Qed.

(** * Further properties *)

(** ** Construction: when it succeeds, how it fails *)



Lemma Qge1_inject z : (1 <= inject_Z z)%Q → 1 ≤ z.
Proof. unfold Qle, inject_Z; simpl. lia. Qed.






(** ** Construction: the numbers it stores *)

Lemma fraction_within governing v :
  0 ≤ governing → (0 <= v)%Q → (v < 1)%Q →
  0 ≤ py_int (inject_Z governing * v) ≤ governing.
Proof.
  intros Hg H0 H1.
  assert (0 <= inject_Z governing)%Q as HgQ by (unfold Qle, inject_Z; simpl; lia).
  split.
  - apply py_int_nonneg. by apply Qmult_le_0_compat.
  - apply py_int_le; [by apply Qmult_le_0_compat |].
    rewrite Qmult_comm. rewrite <- (Qmult_1_l (inject_Z governing)) at 2.
    apply Qmult_le_compat_r; [by apply Qlt_le_weak | done].
Qed.

(** X3: in a constructed model a margin's thickness lies between 0 and its
    governing dimension whenever that dimension is the one the value was
    tested against (the header margins, the body's left and right), and
    also whenever the value was a fraction of a dimension that is not
    negative. *)
Theorem thickness_within_dimension im_size margins g a s :
  init_layout im_size margins = Ok g →
  tested_against g a s = governing g a s
  ∨ ((supplied margins a s < 1)%Q ∧ 0 ≤ governing g a s) →
  0 ≤ thickness g a s ≤ governing g a s.
Proof.
  intros (_ & _ & _ & _ & _ & _ & _ & Hblock)%init_layout_Ok Hwhen.
  specialize (Hblock a s). destruct Hwhen as [Heq | [Hlt Hg]].
  - rewrite Heq in Hblock. by apply margin_block_bounds in Hblock.
  - apply margin_block_Ok in Hblock as (H0 & _ & [(_ & -> & _) | (Hge & _)]).
    + by apply fraction_within.
    + exfalso. by apply (Qlt_not_le _ 1 Hlt).
Qed.

Lemma thickness_within_dimension_witness :
  0 ≤ thickness layout_1000x800 body_area top_side
  ≤ governing layout_1000x800 body_area top_side.
Proof.
  apply (thickness_within_dimension (1000, 800) no_kwargs layout_1000x800 body_area top_side).
  - vm_compute. reflexivity.
  - right. split; [by vm_compute | simpl; lia].
Defined.

Lemma floor_split (h : Z) (r : Q) :
  h - 1 ≤ Qfloor (inject_Z h * r) + Qfloor (inject_Z h * (1 - r)) ≤ h.
Proof.
  pose proof (Qfloor_le (inject_Z h * r)) as Ha.
  pose proof (Qlt_floor (inject_Z h * r)) as Ha'.
  pose proof (Qfloor_le (inject_Z h * (1 - r))) as Hb.
  pose proof (Qlt_floor (inject_Z h * (1 - r))) as Hb'.
  set (a := Qfloor (inject_Z h * r)) in *.
  set (b := Qfloor (inject_Z h * (1 - r))) in *.
  rewrite inject_Z_plus in Ha', Hb'.
  assert (inject_Z (a + b) <= inject_Z h)%Q as Hle
    by (rewrite inject_Z_plus; lra).
  assert (inject_Z h < inject_Z (a + b + 2))%Q as Hlt
    by (rewrite !inject_Z_plus; change (inject_Z 2) with 2%Q;
        change (inject_Z 1) with 1%Q in *; lra).
  rewrite <- Zle_Qle in Hle. rewrite <- Zlt_Qlt in Hlt. lia.
Qed.

(** X4: for an image height that is not negative and [0 <= hbratio <= 1]
    the header and body heights are not negative and add up to the image
    height or to one less: header and body never overlap, and at most the
    last row of the image belongs to neither. *)
Theorem header_and_body_heights im_size margins g :
  init_layout im_size margins = Ok g →
  0 ≤ snd im_size → (0 <= hbratio g)%Q → (hbratio g <= 1)%Q →
  0 ≤ header_height g ∧ 0 ≤ body_height g
  ∧ height g - 1 ≤ header_height g + body_height g ≤ height g.
Proof.
  intros (_ & Hh & _ & _ & Hhh & _ & Hbh & _)%init_layout_Ok Hheight H0 H1.
  assert (0 <= inject_Z im_size.2)%Q as HhQ by (unfold Qle, inject_Z; simpl; lia).
  assert (0 <= 1 - hbratio g)%Q as H1' by (by apply (Qle_minus_iff (hbratio g) 1)).
  rewrite Hhh, Hbh, Hh.
  rewrite !py_int_floor by (by apply Qmult_le_0_compat).
  split; [| split].
  - change 0 with (Qfloor 0). by apply Qfloor_resp_le, Qmult_le_0_compat.
  - change 0 with (Qfloor 0). by apply Qfloor_resp_le, Qmult_le_0_compat.
  - apply floor_split.
Qed.

Lemma header_and_body_heights_witness :
  0 ≤ header_height layout_1000x800 ∧ 0 ≤ body_height layout_1000x800
  ∧ height layout_1000x800 - 1
    ≤ header_height layout_1000x800 + body_height layout_1000x800
    ≤ height layout_1000x800.
Proof.
  apply (header_and_body_heights (1000, 800) no_kwargs layout_1000x800).
  - vm_compute. reflexivity.
  - simpl. lia.
  - by vm_compute.
  - by vm_compute.
Defined.

(** ** Aliases *)

Lemma entry_at_bind_all io a part key :
  parts_ok a → io = "incl" ∨ io = "excl" →
  entry_at (bind_all io a) part key
  = if decide (part ∈ parts ∧ key ∈ sides) then entry_at a part (key +:+ "-" +:+ io)
    else entry_at a part key.
Proof.
  intros Ha Hio. unfold entry_at. rewrite bind_all_lookup by done.
  destruct (decide (part ∈ parts)) as [Hp | Hp].
  - destruct (parts_ok_lookup a part Ha Hp) as (t & -> & Hv). simpl.
    rewrite bind_sides_lookup by done.
    destruct (decide (key ∈ sides)).
    + by rewrite decide_True.
    + rewrite decide_False; [done | tauto].
  - rewrite decide_False; [done | tauto].
Qed.

Lemma side_in_regions side : side ∈ sides → side ∈ regions.
Proof. unfold regions. rewrite !elem_of_app. auto. Qed.

Lemma variant_in_regions side io :
  side ∈ sides → io = "incl" ∨ io = "excl" → side +:+ "-" +:+ io ∈ regions.
Proof.
  unfold sides. intros Hs Hio.
  repeat (apply elem_of_cons in Hs as [-> | Hs]); [.. | by apply elem_of_nil in Hs];
    destruct Hio as [-> | ->]; in_list.
Qed.

Lemma variant_is_Some a part side io :
  parts_ok a → part ∈ parts → side ∈ sides → io = "incl" ∨ io = "excl" →
  is_Some (entry_at a part (side +:+ "-" +:+ io)).
Proof.
  intros Ha Hp Hs Hio. unfold entry_at.
  destruct (parts_ok_lookup a part Ha Hp) as (t & -> & Hv). simpl.
  by apply variant_lookup.
Qed.

(** X5: [margins(True)], [margins(False)] and [margins()] set the flag to
    [True], to [False], to its negation, and leave every alias [left],
    [right], [top], [bottom] of the parts [full], [header], [body] bound to
    the entry of its [-incl] or [-excl] key according to the new flag; no
    other entry of the table and no pixel changes. *)
Theorem margins_binds_aliases switch self :
  consistent self →
  switch = SwTrue ∨ switch = SwFalse ∨ switch = SwNone →
  ∃ self',
    pbc.margins switch self = Ok (None, self')
    ∧ _include_margins self' = flag_after switch self
    ∧ (∀ part side, part ∈ parts → side ∈ sides →
         is_Some (entry_at (area self') part side)
         ∧ entry_at (area self') part side
           = entry_at (area self') part
               (side +:+ "-" +:+ in_or_ex (flag_after switch self)))
    ∧ (∀ part key, key ∉ sides →
         entry_at (area self') part key = entry_at (area self) part key)
    ∧ im_obj self' = im_obj self.
Proof.
  intros Hc Hswitch. pose proof (consistent_parts_ok self Hc) as Ha.
  set (b := flag_after switch self).
  exists (set_area (bind_all (in_or_ex b) (area self))
            (announce b (set_include_margins b self))).
  assert (∀ f s, area (announce f s) = area s ∧ im_obj (announce f s) = im_obj s
                 ∧ _include_margins (announce f s) = _include_margins s) as Hann
    by (by intros f [? ? ? ? ? ? [] ? ?]).
  split; [| split; [| split; [| split]]].
  - subst b. unfold pbc.margins.
    destruct Hswitch as [-> | [-> | ->]]; cbn [flag_after].
    + erewrite bind_Ok; [| by apply setter_spec]. done.
    + erewrite bind_Ok; [| by apply setter_spec]. done.
    + erewrite bind_Ok; [| reflexivity].
      destruct (_include_margins self); (erewrite bind_Ok; [| by apply setter_spec]); done.
  - cbn [_include_margins set_area]. by rewrite (proj2 (proj2 (Hann _ _))).
  - intros part side Hp Hs. cbn [area set_area].
    rewrite !entry_at_bind_all by auto using in_or_ex_cases.
    rewrite decide_True by done.
    rewrite decide_False
      by (intros [_ Hin];
          by apply (side_variant_not_side side (in_or_ex b) Hs (in_or_ex_cases b))).
    split; [| done]. by apply variant_is_Some, in_or_ex_cases.
  - intros part key Hk. cbn [area set_area].
    rewrite entry_at_bind_all by auto using in_or_ex_cases.
    rewrite decide_False; [done | tauto].
  - cbn [im_obj set_area]. by rewrite (proj1 (proj2 (Hann _ _))).
Qed.

Lemma margins_binds_aliases_witness :
  ∃ self',
    pbc.margins SwFalse demo_model = Ok (None, self')
    ∧ _include_margins self' = flag_after SwFalse demo_model
    ∧ (∀ part side, part ∈ parts → side ∈ sides →
         is_Some (entry_at (area self') part side)
         ∧ entry_at (area self') part side
           = entry_at (area self') part
               (side +:+ "-" +:+ in_or_ex (flag_after SwFalse demo_model)))
    ∧ (∀ part key, key ∉ sides →
         entry_at (area self') part key = entry_at (area demo_model) part key)
    ∧ im_obj self' = im_obj demo_model.
Proof.
  apply (margins_binds_aliases SwFalse demo_model).
  - split; [left; split; reflexivity | reflexivity | reflexivity | reflexivity].
  - right. left. reflexivity.
Defined.

(** X6: an alias resolves to the entry of its [-incl] key while the flag
    is [True] and of its [-excl] key while it is [False], in a freshly
    constructed model too. *)
Theorem alias_resolves_by_flag part side self :
  consistent self → part ∈ parts → side ∈ sides →
  ∃ e,
    outcome (resolve part side self) = Ok e
    ∧ outcome (resolve part (side +:+ "-" +:+ in_or_ex (_include_margins self)) self)
      = Ok e.
Proof.
  intros Hc Hp Hs.
  pose proof (in_or_ex_cases (_include_margins self)) as Hio.
  destruct (bound_table_part (layout self) (_include_margins self) part Hp)
    as (t & Ht & Hpart & _).
  assert (has_variants t) as Hv.
  { destruct Ht as [-> | [-> | ->]];
      auto using has_variants_full_table, has_variants_header_table,
        has_variants_body_table. }
  destruct (variant_lookup t side _ Hv Hs Hio) as [e He].
  exists e. rewrite !resolve_spec by done.
  unfold resolved_part, resolved_region.
  rewrite !decide_True by auto using side_in_regions, variant_in_regions.
  rewrite !(area_get_bound _ (layout self) (_include_margins self) _ _ t) by done.
  rewrite (bind_sides_lookup _ t side), decide_True by done.
  rewrite bind_sides_variant by auto using side_variant_not_side.
  by rewrite He.
Qed.

Lemma alias_resolves_by_flag_witness :
  ∃ e,
    outcome (resolve "header" "left" demo_model) = Ok e
    ∧ outcome (resolve "header" ("left" +:+ "-" +:+ in_or_ex (_include_margins demo_model))
                 demo_model)
      = Ok e.
Proof.
  apply (alias_resolves_by_flag "header" "left" demo_model).
  - split; [left; split; reflexivity | reflexivity | reflexivity | reflexivity].
  - apply (bool_decide_unpack _). vm_compute. reflexivity.
  - apply (bool_decide_unpack _). vm_compute. reflexivity.
Defined.

(** ** Entries: size, origin, rectangle *)

Ltac unfold_sizes :=
  unfold image_size, header_size, body_size, header_cont_size, body_cont_size,
    body_cont_width, body_cont_height,
    header_margin_left_inclusive_size, header_margin_right_inclusive_size,
    header_margin_top_inclusive_size, header_margin_bottom_inclusive_size,
    header_margin_left_exclusive_size, header_margin_right_exclusive_size,
    header_margin_top_exclusive_size, header_margin_bottom_exclusive_size,
    body_margin_left_inclusive_size, body_margin_right_inclusive_size,
    body_margin_top_inclusive_size, body_margin_bottom_inclusive_size,
    body_margin_left_exclusive_size, body_margin_right_exclusive_size,
    body_margin_top_exclusive_size, body_margin_bottom_exclusive_size,
    boxsize, delta, delta_x, delta_y in *.

Lemma table_size g t k sz o r :
  t = full_table g ∨ t = header_table g ∨ t = body_table g →
  header_height g + body_height g = height g →
  header_width g = width g → body_width g = width g →
  t !! k = Some (Entry3 sz o r) → sz = boxsize r.
Proof.
  intros Ht Hsum Hhw Hbw.
  destruct Ht as [-> | [-> | ->]]; unfold_table; rewrite !lookup_insert, lookup_empty;
    repeat case_decide; intros [= <- <- <-];
    unfold_sizes; unfold_rects; f_equal; lia.
Qed.

Section Entries.

Context `{Imaging}.

(** Every accepted pair has an entry. *)
Lemma resolve_total part region self :
  consistent self → ∃ e, outcome (resolve part region self) = Ok e.
Proof.
  intros Hc. rewrite resolve_spec by done.
  destruct (bound_table_part (layout self) (_include_margins self) (resolved_part part))
    as (t & Ht & Hpart & _); [apply resolved_part_elem |].
  rewrite (area_get_bound _ (layout self) (_include_margins self) _ _ t);
    [| done | apply resolved_part_elem | done].
  assert (is_Some (bind_sides (in_or_ex (_include_margins self)) t
                   !! resolved_region region)) as [e He].
  { apply (bound_keys (layout self)); [done | apply in_or_ex_cases |].
    unfold resolved_region. case_decide; [done | in_list]. }
  exists e. by rewrite He.
Qed.

Lemma resolve_table_entry part region self e :
  consistent self → outcome (resolve part region self) = Ok e →
  ∃ t k, (t = full_table (layout self) ∨ t = header_table (layout self)
          ∨ t = body_table (layout self))
         ∧ t !! k = Some e.
Proof.
  intros Hc. rewrite resolve_spec by done.
  destruct (bound_table_part (layout self) (_include_margins self) (resolved_part part))
    as (t & Ht & Hpart & _); [apply resolved_part_elem |].
  rewrite (area_get_bound _ (layout self) (_include_margins self) _ _ t);
    [| done | apply resolved_part_elem | done].
  assert (has_variants t) as Hv.
  { destruct Ht as [-> | [-> | ->]];
      auto using has_variants_full_table, has_variants_header_table,
        has_variants_body_table. }
  rewrite bind_sides_lookup by auto using in_or_ex_cases.
  case_decide.
  - destruct (t !! _) as [e' |] eqn:He; [| done]. intros [= ->]. eauto.
  - destruct (t !! _) as [e' |] eqn:He; [| done]. intros [= ->]. eauto.
Qed.

End Entries.

(** X7: in a model whose layout the constructor computed, the entry a pair
    resolves to, if it has a rectangle, has the rectangle's upper left corner
    as origin, and has the rectangle's width and height as size when header
    and body heights add up to the image height. *)
Theorem entry_shape `{Imaging} im_size margins part region self sz o r :
  init_layout im_size margins = Ok (layout self) → consistent self →
  outcome (resolve part region self) = Ok (Entry3 sz o r) →
  o = topleft r
  ∧ (header_height (layout self) + body_height (layout self) = height (layout self) →
     sz = boxsize r).
Proof.
  intros Hg Hc He.
  destruct (resolve_table_entry part region self _ Hc He) as (t & k & Ht & Hk).
  split; [by eapply table_origin |].
  apply init_layout_Ok in Hg as (Hw & _ & _ & Hhw & _ & Hbw & _).
  intros Hsum. eapply table_size; [exact Ht | done | congruence | congruence | exact Hk].
Qed.

Lemma entry_shape_witness :
  (150, 224) = topleft (150, 224, 850, 736)
  ∧ (header_height (layout demo_model) + body_height (layout demo_model)
     = height (layout demo_model) →
     (700, 512) = boxsize (150, 224, 850, 736)).
Proof.
  apply (entry_shape (H := plain_imaging) (1000, 800) no_kwargs "body" "inner" demo_model).
  - by vm_compute.
  - split; [left; split; reflexivity | reflexivity | reflexivity | reflexivity].
  - by vm_compute.
Defined.

(** ** Which entries have a rectangle *)

Ltac not_in_list H :=
  repeat (apply elem_of_cons in H as [H | H]; [discriminate H |]);
  by apply elem_of_nil in H.

Lemma header_body_rect g t k e :
  t = header_table g ∨ t = body_table g → t !! k = Some e → ∃ r, item2 e = Ok r.
Proof.
  intros [-> | ->]; unfold_table; rewrite !lookup_insert, lookup_empty;
    repeat case_decide; intros [= <-]; cbn; eauto.
Qed.

Lemma full_rect g k e :
  full_table g !! k = Some e →
  (∃ r, item2 e = Ok r)
  ↔ k ∈ ["full"; "top-incl"; "top-excl"; "bottom-incl"; "bottom-excl"].
Proof.
  unfold_table; rewrite !lookup_insert, lookup_empty.
  repeat case_decide; subst; intros [= <-]; cbn;
    (split; [intros [r Hr]; first [by in_list | discriminate Hr]
            | intros Hin; first [by eexists | not_in_list Hin]]).
Qed.

Lemma bound_full_rect g io k e :
  io = "incl" ∨ io = "excl" →
  bind_sides io (full_table g) !! k = Some e →
  (∃ r, item2 e = Ok r) ↔ k ∈ boxed_regions.
Proof.
  intros Hio. rewrite bind_sides_lookup by auto using has_variants_full_table.
  case_decide as Hk.
  - intros He. rewrite (full_rect g _ e He). unfold sides in Hk.
    repeat (apply elem_of_cons in Hk as [-> | Hk]); [.. | by apply elem_of_nil in Hk];
      destruct Hio as [-> | ->];
      (split; intros Hin; first [by in_list | not_in_list Hin]).
  - intros He. rewrite (full_rect g _ e He). unfold boxed_regions.
    split; intros Hin.
    + repeat (apply elem_of_cons in Hin as [-> | Hin]); [.. | by apply elem_of_nil in Hin];
        in_list.
    + repeat (apply elem_of_cons in Hin as [-> | Hin]); [.. | by apply elem_of_nil in Hin];
        first [solve [in_list] | exfalso; apply Hk; in_list].
Qed.

Section Boxed.

Context `{Imaging}.

Lemma resolved_rect part region self e :
  consistent self → outcome (resolve part region self) = Ok e →
  (∃ r, item2 e = Ok r) ↔ boxed part region.
Proof.
  intros Hc. rewrite resolve_spec by done. unfold boxed.
  pose proof (resolved_part_elem part) as Hp.
  destruct (bound_table_part (layout self) (_include_margins self) (resolved_part part))
    as (t & Ht & Hpart & _); [done |].
  rewrite (area_get_bound _ (layout self) (_include_margins self) _ _ t);
    [| done | done | done].
  revert Hpart. rewrite area_table_lookup.
  destruct (bind_sides _ t !! resolved_region region) as [e' |] eqn:He; [| done].
  intros Hpart [= ->].
  case_decide as Hfull.
  - injection Hpart as <-.
    rewrite (bound_full_rect _ _ _ _ (in_or_ex_cases _) He).
    split; [by right | by intros [? | ?]].
  - assert (t = header_table (layout self) ∨ t = body_table (layout self)) as Ht'.
    { assert (resolved_part part = "header" ∨ resolved_part part = "body") as [Hq | Hq].
      { unfold parts in Hp.
        repeat (apply elem_of_cons in Hp as [Hp | Hp]);
          [done | auto | auto | by apply elem_of_nil in Hp]. }
      all: rewrite Hq in Hpart; repeat (rewrite decide_False in Hpart by done);
        rewrite decide_True in Hpart by done; injection Hpart as <-; auto. }
    assert (has_variants t) as Hv.
    { destruct Ht' as [-> | ->];
        auto using has_variants_header_table, has_variants_body_table. }
    rewrite bind_sides_lookup in He by auto using in_or_ex_cases.
    split; [auto |]. intros _.
    destruct (decide (resolved_region region ∈ sides));
      (eapply header_body_rect; [exact Ht' | exact He]).
Qed.

End Boxed.

(** ** What the drawing methods do to the working buffer *)

Section Drawing.

Context `{Imaging}.
Variable world : World.








End Drawing.

(** ** What no method assigns to *)

Lemma stable_bind {A B} (c : M A) (k : A → M B) :
  stable c → (∀ a, stable (k a)) → stable (bind c k).
Proof.
  intros Hc Hk self b self'' Hrun.
  apply bind_inv in Hrun as (a & self' & Hrun & Hrest).
  rewrite (Hk a _ _ _ Hrest). by eapply Hc.
Qed.

Lemma stable_ret {A} (a : A) : stable (ret a).
Proof. by intros self a' self' [= <- <-]. Qed.

Lemma stable_gets {A} (f : Background → A) : stable (gets f).
Proof. by intros self a' self' [= <- <-]. Qed.

Lemma stable_raise {A} e : stable (raise (A := A) e).
Proof. by intros self a self' ?. Qed.

Lemma stable_lift {A} (r : Result A) : stable (lift r).
Proof. intros self a self'. unfold lift. destruct r; [| done]. by intros [= <- <-]. Qed.

Lemma stable_modify f : (∀ self, origin (f self) = origin self) → stable (modify f).
Proof. intros Hf self a self' [= <- <-]. apply Hf. Qed.

Lemma stable_print line : stable (print line).
Proof. by apply stable_modify. Qed.

Lemma stable_area_get part region : stable (area_get part region).
Proof.
  intros self a self'. unfold area_get.
  destruct (area self !! part) as [t |]; [| done].
  destruct (t !! region); [| done]. by intros [= <- <-].
Qed.

Lemma stable_area_set part region e : stable (area_set part region e).
Proof.
  intros self a self'. unfold area_set.
  destruct (area self !! part) as [t |]; [| done]. by intros [= <- <-].
Qed.

Ltac stabilize :=
  repeat first
    [ apply stable_ret | apply stable_gets | apply stable_raise | apply stable_lift
    | apply stable_print | apply stable_area_get | apply stable_area_set
    | (apply stable_modify; by intros [])
    | (apply stable_bind; [| intros ?])
    | match goal with
      | |- stable (match ?x with _ => _ end) => destruct x
      end
    | progress cbv zeta ].

Section Stable.

Context `{Imaging}.
Variable world : World.

Lemma stable_setter switch : stable (pbc.include_margins_setter switch).
Proof. unfold pbc.include_margins_setter, pbc.bind_alias, pbc.message. stabilize. Qed.

Lemma stable_margins switch : stable (pbc.margins switch).
Proof. unfold pbc.margins. stabilize; apply stable_setter. Qed.

Lemma stable_area_check part region : stable (pbc.area_check part region).
Proof.
  unfold pbc.area_check.
  repeat first [apply stable_margins | (apply stable_bind; [| intros ?])]; stabilize.
Qed.

Lemma stable_message_applied operator operation part region :
  stable (pbc.message_applied operator operation part region).
Proof. unfold pbc.message_applied. stabilize. Qed.

Lemma stable_try_open_image name part region :
  stable (pbc.try_open_image world name part region).
Proof. unfold pbc.try_open_image. stabilize. Qed.

Lemma stable_paste_image canvas image part region coords :
  stable (pbc.paste_image canvas image part region coords).
Proof. unfold pbc.paste_image. stabilize. Qed.

Ltac stabilize_method :=
  repeat first
    [ apply stable_area_check | apply stable_message_applied | apply stable_try_open_image
    | apply stable_paste_image | apply stable_margins
    | apply stable_ret | apply stable_gets | apply stable_raise | apply stable_lift
    | apply stable_print | apply stable_area_get | apply stable_area_set
    | (apply stable_modify; by intros [])
    | (apply stable_bind; [| intros ?])
    | match goal with
      | |- stable (match ?x with _ => _ end) => destruct x
      end
    | progress cbv zeta ].

Lemma stable_filter operation part region value :
  stable (pbc.filter operation part region value).
Proof. unfold pbc.filter. stabilize_method. Qed.

Lemma stable_overlay ov_image part region : stable (pbc.overlay world ov_image part region).
Proof. unfold pbc.overlay. stabilize_method. Qed.

Lemma stable_image picture part region borders anchor transparency :
  stable (pbc.image world picture part region borders anchor transparency).
Proof. unfold pbc.image. stabilize_method. Qed.

Lemma stable_dimensions part region : stable (pbc.dimensions part region).
Proof. unfold pbc.dimensions. stabilize_method. Qed.

Lemma stable_save save_location name location :
  stable (pbc.save world save_location name location).
Proof. unfold pbc.save. stabilize_method. Qed.

End Stable.

(** ** [image]: placeholders and invalid [borders] *)

Section Image.

Context `{Imaging}.
Variable world : World.




End Image.

(** ** The methods on a constructed model *)

(** X8: every pair resolves to an entry; the entry has a rectangle, whose
    upper left corner is its origin, exactly when the part is [header] or
    [body] or the region is one of [full], [top], [bottom] and their
    variants; the other entries of part [full] are pairs. *)
Theorem rectangle_exactly_when_boxed part region self :
  consistent self →
  ∃ e, outcome (resolve part region self) = Ok e
       ∧ (boxed part region → ∃ sz rect, e = Entry3 sz (topleft rect) rect)
       ∧ (¬ boxed part region → ∃ sz o, e = Entry2 sz o).
Proof.
  intros Hc. destruct (resolve_total part region self Hc) as [e He].
  exists e. split; [done |].
  pose proof (resolved_rect part region self e Hc He) as Hrect.
  destruct (resolve_Ok part region self e Hc He) as [_ Horigin].
  split.
  - intros [r Hr]%Hrect. destruct e as [| sz o r']; [done |].
    injection Hr as ->. exists sz, r. by rewrite (Horigin sz o r).
  - intros Hno. destruct e as [sz o | sz o r]; [by eauto |].
    destruct Hno. apply Hrect. by exists r.
Qed.

Lemma rectangle_exactly_when_boxed_witness :
  ∃ e, outcome (resolve "full" "left" demo_model) = Ok e
       ∧ (boxed "full" "left" → ∃ sz rect, e = Entry3 sz (topleft rect) rect)
       ∧ (¬ boxed "full" "left" → ∃ sz o, e = Entry2 sz o).
Proof.
  apply (rectangle_exactly_when_boxed "full" "left" demo_model).
  split; [left; split; reflexivity | reflexivity | reflexivity | reflexivity].
Defined.

(** X9: [dimensions] never raises on a constructed model: it returns the
    size and the origin of the entry the pair resolves to, and leaves the
    state [__area_check] leaves, with a warning for each name it did not
    know. *)
Theorem dimensions_returns part region self :
  consistent self →
  ∃ e, outcome (resolve part region self) = Ok e
       ∧ pbc.dimensions part region self
         = Ok ((item0 e, item1 e), checked part region self).
Proof.
  intros Hc. destruct (resolve_total part region self Hc) as [e He].
  exists e. split; [done |].
  destruct (resolve_Ok part region self e Hc He) as [Hget _].
  unfold pbc.dimensions.
  erewrite bind_Ok; [| by apply area_check_spec]. cbv beta iota.
  erewrite bind_Ok; [| by apply Hget]. done.
Qed.

Lemma dimensions_returns_witness :
  ∃ e, outcome (resolve "nowhere" "inner" demo_model) = Ok e
       ∧ pbc.dimensions "nowhere" "inner" demo_model
         = Ok ((item0 e, item1 e), checked "nowhere" "inner" demo_model).
Proof.
  apply (dimensions_returns "nowhere" "inner" demo_model).
  split; [left; split; reflexivity | reflexivity | reflexivity | reflexivity].
Defined.











(** ** [save] and [save_to] *)

(** X15: where [save] puts the file.  With both a location argument and a
    directory from [save_location] or from [name], nothing is saved; a
    file that is saved goes to the working directory when neither is
    given, and else to the one directory given, which exists. *)
Theorem save_directory world save_location name location self r :
  outcome (pbc.save world save_location (Some name) location self) = Ok r →
  (location ≠ [] → save_path save_location name ≠ "" → r = None)
  ∧ ∀ saved, r = Some saved →
      (location = [] ∧ save_path save_location name = ""
       ∧ saved_dir saved = getcwd world)
      ∨ (location = [] ∧ saved_dir saved = save_path save_location name
         ∧ path_exists world (saved_dir saved) = true)
      ∨ (save_path save_location name = ""
         ∧ os_path.join location = Ok (saved_dir saved)
         ∧ path_exists world (saved_dir saved) = true).
Proof.
  destruct (pbc.save world save_location (Some name) location self) as [[r' self'] |] eqn:Hrun;
    [| done].
  intros [= ->]. unfold pbc.save in Hrun. unfold save_path.
  apply bind_inv in Hrun as (? & s1 & [= <- <-] & Hrun).
  cbv zeta in Hrun. revert Hrun.
  generalize (if String.eqb save_location "" then fst (os_path.split name)
              else save_location).
  intros im_path Hrun.
  apply bind_inv in Hrun as (? & s2 & [= <- <-] & Hrun).
  apply bind_inv in Hrun as (path & s3 & Hpath & Hrun).
  destruct (String.eqb_spec im_path "") as [Heq | Hne].
  - destruct location as [| l location].
    + cbv [ret] in Hpath; injection Hpath as <- <-.
      apply bind_inv in Hrun as (? & s4 & _ & Hrun). cbv [ret] in Hrun; injection Hrun as <- <-.
      split; [done |]. intros saved [= <-]. by left.
    + apply bind_inv in Hpath as (joined & s4 & Hjoin & Hpath).
      unfold lift in Hjoin.
      destruct (os_path.join (l :: location)) as [p |] eqn:Hp; [| done].
      injection Hjoin as <- <-.
      destruct (path_exists world p) eqn:Hex.
      * cbv [ret] in Hpath; injection Hpath as <- <-.
        apply bind_inv in Hrun as (? & s5 & _ & Hrun). cbv [ret] in Hrun; injection Hrun as <- <-.
        split; [done |]. intros saved [= <-]. by right; right.
      * apply bind_inv in Hpath as (? & s5 & _ & Hpath).
        apply bind_inv in Hpath as (? & s6 & _ & Hpath).
        cbv [ret] in Hpath; injection Hpath as <- <-. cbv [ret] in Hrun; injection Hrun as <- <-.
        split; [done |]. by intros saved.
  - destruct location as [| l location].
    + destruct (path_exists world im_path) eqn:Hex.
      * cbv [ret] in Hpath; injection Hpath as <- <-.
        apply bind_inv in Hrun as (? & s4 & _ & Hrun). cbv [ret] in Hrun; injection Hrun as <- <-.
        split; [done |]. intros saved [= <-]. right; left. by cbn.
      * apply bind_inv in Hpath as (? & s5 & _ & Hpath).
        apply bind_inv in Hpath as (? & s6 & _ & Hpath).
        cbv [ret] in Hpath; injection Hpath as <- <-. cbv [ret] in Hrun; injection Hrun as <- <-.
        split; [done |]. by intros saved.
    + apply bind_inv in Hpath as (joined & s4 & _ & Hpath).
      apply bind_inv in Hpath as (? & s5 & _ & Hpath).
      apply bind_inv in Hpath as (? & s6 & _ & Hpath).
      cbv [ret] in Hpath; injection Hpath as <- <-. cbv [ret] in Hrun; injection Hrun as <- <-.
      split; [done |]. by intros saved.
Qed.

Lemma save_directory_witness :
  (@nil string ≠ [] → save_path "" "slides/out.jpg" ≠ ""
   → Some (mkSaved "slides" "pbc-out.jpg" "jpeg") = None)
  ∧ ∀ saved, Some (mkSaved "slides" "pbc-out.jpg" "jpeg") = Some saved →
      (@nil string = [] ∧ save_path "" "slides/out.jpg" = ""
       ∧ saved_dir saved = getcwd demo_world)
      ∨ (@nil string = [] ∧ saved_dir saved = save_path "" "slides/out.jpg"
         ∧ path_exists demo_world (saved_dir saved) = true)
      ∨ (save_path "" "slides/out.jpg" = ""
         ∧ os_path.join [] = Ok (saved_dir saved)
         ∧ path_exists demo_world (saved_dir saved) = true).
Proof.
  apply (save_directory demo_world "" "slides/out.jpg" [] demo_model
           (Some (mkSaved "slides" "pbc-out.jpg" "jpeg"))).
  vm_compute. reflexivity.
Defined.



(** ** What stays of the construction *)

(** X17: in every state reached from a construction by the public methods
    and assignments to [include_margins], the pristine copy is the image
    opened at construction, the layout is the one computed from its size
    then, and the names are the two halves of the path given then. *)
Theorem origin_is_fixed `{Imaging} world self :
  reachable world self →
  ∃ name margins,
    files world name = Some (imco self)
    ∧ init_layout (size (imco self)) margins = Ok (layout self)
    ∧ image_name self = snd (os_path.split name)
    ∧ image_path self = fst (os_path.split name).
Proof.
  assert (∀ s s' : Background, origin s' = origin s →
            (∃ name margins,
               files world name = Some (imco s)
               ∧ init_layout (size (imco s)) margins = Ok (layout s)
               ∧ image_name s = snd (os_path.split name)
               ∧ image_path s = fst (os_path.split name)) →
            ∃ name margins,
              files world name = Some (imco s')
              ∧ init_layout (size (imco s')) margins = Ok (layout s')
              ∧ image_name s' = snd (os_path.split name)
              ∧ image_path s' = fst (os_path.split name)) as Hstep.
  { intros s s' [= -> -> -> ->]. done. }
  induction 1 as [name margins self Hinit
                 | ? ? ? ? _ IH Hrun | ? ? ? ? _ IH Hrun | ? ? ? ? ? ? ? _ IH Hrun
                 | ? ? ? ? ? ? _ IH Hrun | ? ? ? ? ? ? ? ? ? _ IH Hrun
                 | ? ? ? ? ? _ IH Hrun | ? ? ? ? ? ? _ IH Hrun].
  - exists name, margins. revert Hinit. unfold pbc.init, rbind, Image_open.
    destruct (files world name) as [im |]; [| done].
    destruct (init_layout (size im) margins) as [g |] eqn:Hg; [| done].
    by intros [= <-].
  - eapply Hstep; [| exact IH]. by eapply stable_setter.
  - eapply Hstep; [| exact IH]. by eapply stable_margins.
  - eapply Hstep; [| exact IH]. by eapply stable_filter.
  - eapply Hstep; [| exact IH]. by eapply stable_overlay.
  - eapply Hstep; [| exact IH]. by eapply stable_image.
  - eapply Hstep; [| exact IH]. by eapply stable_dimensions.
  - eapply Hstep; [| exact IH]. by eapply stable_save.
Qed.

Lemma origin_is_fixed_witness :
  ∃ name margins,
    files demo_world name = Some (imco demo_model)
    ∧ init_layout (size (imco demo_model)) margins = Ok (layout demo_model)
    ∧ image_name demo_model = snd (os_path.split name)
    ∧ image_path demo_model = fst (os_path.split name).
Proof.
  apply (origin_is_fixed (H := plain_imaging) demo_world demo_model).
  apply (reach_init demo_world "pic.png" no_kwargs). exact demo_model_init.
Defined.

(** X18: in every state reached from a construction the working buffer has
    the pixel mode and the size of the pristine copy, whose size is the
    width and height of the layout, and the table is the one the
    constructor built, with the aliases bound as the flag says or, while
    the flag is still [True], not bound yet. *)
Theorem reachable_invariant `{Imaging} world self :
  reachable world self →
  mode (im_obj self) = mode (imco self)
  ∧ size (im_obj self) = size (imco self)
  ∧ size (imco self) = (width (layout self), height (layout self))
  ∧ ((area self = area_table (layout self) ∧ _include_margins self = true)
     ∨ area self = bound_table (layout self) (_include_margins self)).
Proof.
  intros Hr. by destruct (reachable_consistent world self Hr) as [Ha Hm Hs Hd].
Qed.

Lemma reachable_invariant_witness :
  mode (im_obj demo_model) = mode (imco demo_model)
  ∧ size (im_obj demo_model) = size (imco demo_model)
  ∧ size (imco demo_model) = (width (layout demo_model), height (layout demo_model))
  ∧ ((area demo_model = area_table (layout demo_model)
      ∧ _include_margins demo_model = true)
     ∨ area demo_model = bound_table (layout demo_model) (_include_margins demo_model)).
Proof.
  apply (reachable_invariant (H := plain_imaging) demo_world demo_model).
  apply (reach_init demo_world "pic.png" no_kwargs). exact demo_model_init.
Defined.

(** ** [image] without borders, and on buffers that are not RGB *)

Section Unbordered.

Context `{Imaging}.
Variable world : World.




End Unbordered.




